(** * Verification of the source-tree reorganisation scripts

    [scripts/update_imports.py]      (the import rewriter)
    [scripts/migrate_to_modules.py]  (the relocator)

    Text is a list of characters; each character is a code point below 256.
    Paths are lists of components relative to the script's [BASE_PATH]. *)

From Stdlib Require Import Ascii String List Bool Arith Lia.
From stdpp Require Import base option list strings gmap fin_maps.

Local Open Scope list_scope.

(** ** Text *)

Module Text.

Abbreviation text := (list ascii).

Definition T (s : string) : text := list_ascii_of_string s.

Definition semi : ascii := ";"%char.
Definition dot : ascii := "."%char.
Definition newline : ascii := "010"%char.

(** [\s] of a Python [str] pattern: the characters for which
    [str.isspace] holds, below code point 256. *)
Definition is_space (c : ascii) : bool :=
  let n := nat_of_ascii c in
  ((9 <=? n) && (n <=? 13)) || ((28 <=? n) && (n <=? 32))
  || (n =? 133) || (n =? 160).

Definition text_eqb (a b : text) : bool := bool_decide (a = b).

(** Match the literal [p] at the head of [s]; the rest of [s] on success. *)
Fixpoint strip_prefix (p s : text) : option text :=
  match p, s with
  | [], _ => Some s
  | a :: p', b :: s' => if Ascii.eqb a b then strip_prefix p' s' else None
  | _ :: _, [] => None
  end.

(** [\s+] followed by the literal [body], anchored at the head of [s]:
    greedy on the white space, backtracking to shorter runs. *)
Fixpoint spaces_then (body s : text) : option text :=
  match s with
  | c :: t =>
      if is_space c then
        match spaces_then body t with
        | Some r => Some r
        | None => strip_prefix body t
        end
      else None
  | [] => None
  end.

(** The pattern [import\s+<body>] anchored at the head of [s], where
    [body] is the text that [re.escape] makes literal (with the [;] that
    closes the pattern). *)
Definition match_import (body s : text) : option text :=
  match strip_prefix (T "import") s with
  | Some t => spaces_then body t
  | None => None
  end.

(** [re.sub(pattern, repl, s)] for such a pattern: leftmost matches, not
    overlapping, each replaced by [repl]. The pattern matches no empty
    text, so the scan resumes after each match. *)
Fixpoint re_sub_fuel (fuel : nat) (body repl s : text) : text :=
  match fuel with
  | O => s
  | S fuel' =>
      match match_import body s with
      | Some rest => repl ++ re_sub_fuel fuel' body repl rest
      | None =>
          match s with
          | [] => []
          | c :: t => c :: re_sub_fuel fuel' body repl t
          end
      end
  end.

Definition re_sub (body repl s : text) : text :=
  re_sub_fuel (S (length s)) body repl s.

(** [s.rsplit('.', 1)[0]]: the part before the last dot, the whole of [s]
    when it has none. *)
Fixpoint has_dot (s : text) : bool :=
  match s with
  | [] => false
  | c :: t => Ascii.eqb c dot || has_dot t
  end.

Fixpoint rsplit_dot (s : text) : text :=
  match s with
  | [] => []
  | c :: t =>
      if has_dot t then c :: rsplit_dot t
      else if Ascii.eqb c dot then [] else c :: t
  end.

(** The replacement of [re.sub] is a template. One without a backslash
    stands for itself: [expand_template] gives such a template back, and
    [None] for one with a backslash, which [parse_template] below reads. *)
Definition backslash : ascii := "\"%char.

Definition expand_template (repl : text) : option text :=
  if forallb (fun c => negb (Ascii.eqb c backslash)) repl then Some repl
  else None.

(** *** Replacement templates

    [re._parser.parse_template] of CPython 3.11, for a pattern that has
    no group of its own, so that the whole match (group 0) is the only
    group a template may name. A template is read into literal
    characters and references to the match; [None] stands for the
    exception that [re.sub] raises on a template it refuses, before it
    looks at the text. *)
Inductive item : Type :=
  | Lit (c : ascii)
  | Group0.

Definition in_range (lo hi c : ascii) : bool :=
  (nat_of_ascii lo <=? nat_of_ascii c) && (nat_of_ascii c <=? nat_of_ascii hi).

Definition is_digit (c : ascii) : bool := in_range "0" "9" c.
Definition is_octal (c : ascii) : bool := in_range "0" "7" c.
Definition is_letter (c : ascii) : bool :=
  in_range "a" "z" c || in_range "A" "Z" c.
Definition digit_val (c : ascii) : nat := nat_of_ascii c - 48.

(** [ESCAPES]: the escapes that stand for one character. *)
Definition escape_char (c : ascii) : option ascii :=
  if Ascii.eqb c "a" then Some "007"%char
  else if Ascii.eqb c "b" then Some "008"%char
  else if Ascii.eqb c "f" then Some "012"%char
  else if Ascii.eqb c "n" then Some "010"%char
  else if Ascii.eqb c "r" then Some "013"%char
  else if Ascii.eqb c "t" then Some "009"%char
  else if Ascii.eqb c "v" then Some "011"%char
  else if Ascii.eqb c backslash then Some backslash
  else None.

(** The white space that [int] skips around a number. *)
Definition is_int_space (c : ascii) : bool :=
  let n := nat_of_ascii c in
  ((9 <=? n) && (n <=? 13)) || (n =? 32) || (n =? 133) || (n =? 160).

Fixpoint drop_int_spaces (s : text) : text :=
  match s with
  | c :: t => if is_int_space c then drop_int_spaces t else s
  | [] => []
  end.

Definition drop_sign (s : text) : text :=
  match s with
  | c :: t => if Ascii.eqb c "+" || Ascii.eqb c "-" then t else s
  | [] => []
  end.

(** Zeros, with single underscores between them; [after_digit] tells
    whether the character before is a digit. *)
Fixpoint zeros (after_digit : bool) (s : text) : bool :=
  match s with
  | [] => after_digit
  | c :: t =>
      if Ascii.eqb c "0" then zeros true t
      else if Ascii.eqb c "_" && after_digit then zeros false t
      else false
  end.

(** [int(name) == 0]: the group name of [\g<name>] is a number when it
    is not an identifier, and 0 is the only number within range. [int]
    takes white space around the number, a sign, and underscores between
    the digits, and refuses more than 4300 digits; CPython 3.11 takes
    all these forms as a group number. *)
Definition names_group0 (name : text) : bool :=
  let digits := drop_sign (rev (drop_int_spaces (rev (drop_int_spaces name)))) in
  zeros false digits
  && (length (List.filter (fun c => Ascii.eqb c "0") digits) <=? 4300).

(** Where the reader stands in the template. *)
Inductive mode : Type :=
  | Plain
  | Escape
  | Octal0 (more value : nat)
  | Digit1 (a : ascii)
  | Digit2 (a b : ascii)
  | GroupOpen
  | GroupName (name : text).

Definition emit (l : list item) (r : option (list item))
    : option (list item) :=
  option_map (app l) r.

(** - [Escape]: after a backslash. [\g] opens a group reference, [\0]
      an octal escape of up to three digits, another digit a group
      number or an octal escape, the letters of [ESCAPES] and the
      backslash one character; any other ASCII letter is refused, and
      any other character is kept with its backslash.
    - [Octal0 more value]: after [\0] and the octal digits of [value];
      [more] more digits may follow.
    - [Digit1 a], [Digit2 a b]: after [\a] and [\ab], [a] from 1 to 9;
      three octal digits are a character when their value is below 256,
      anything else is the number of a group, which does not exist.
    - [GroupOpen]: after [\g], where [<] must follow.
    - [GroupName name]: after [\g<], with the name read so far, last
      character first; the name ends at the first [>]. *)
Fixpoint parse_template_from (m : mode) (s : text) : option (list item) :=
  match s with
  | [] =>
      match m with
      | Plain => Some []
      | Octal0 _ value => Some [Lit (ascii_of_nat value)]
      | _ => None
      end
  | c :: t =>
      match m with
      | Plain =>
          if Ascii.eqb c backslash then parse_template_from Escape t
          else emit [Lit c] (parse_template_from Plain t)
      | Escape =>
          if Ascii.eqb c "g" then parse_template_from GroupOpen t
          else if Ascii.eqb c "0" then parse_template_from (Octal0 2 0) t
          else if is_digit c then parse_template_from (Digit1 c) t
          else
            match escape_char c with
            | Some e => emit [Lit e] (parse_template_from Plain t)
            | None =>
                if is_letter c then None
                else emit [Lit backslash; Lit c] (parse_template_from Plain t)
            end
      | Octal0 (S more) value =>
          if is_octal c
          then parse_template_from (Octal0 more (8 * value + digit_val c)) t
          else if Ascii.eqb c backslash
          then emit [Lit (ascii_of_nat value)] (parse_template_from Escape t)
          else emit [Lit (ascii_of_nat value); Lit c]
                 (parse_template_from Plain t)
      | Octal0 O value =>
          if Ascii.eqb c backslash
          then emit [Lit (ascii_of_nat value)] (parse_template_from Escape t)
          else emit [Lit (ascii_of_nat value); Lit c]
                 (parse_template_from Plain t)
      | Digit1 a =>
          if is_octal a && is_octal c then parse_template_from (Digit2 a c) t
          else None
      | Digit2 a b =>
          let value := 64 * digit_val a + 8 * digit_val b + digit_val c in
          if is_octal c && (value <=? 255)
          then emit [Lit (ascii_of_nat value)] (parse_template_from Plain t)
          else None
      | GroupOpen =>
          if Ascii.eqb c "<" then parse_template_from (GroupName []) t
          else None
      | GroupName name =>
          if Ascii.eqb c ">" then
            if names_group0 (rev name)
            then emit [Group0] (parse_template_from Plain t)
            else None
          else if Ascii.eqb c backslash then None
          else parse_template_from (GroupName (c :: name)) t
      end
  end.

Definition parse_template (repl : text) : option (list item) :=
  parse_template_from Plain repl.

(** [re._parser.expand_template]: the text that takes the place of the
    match [m]. *)
Definition expand (tpl : list item) (m : text) : text :=
  flat_map (fun it => match it with Lit c => [c] | Group0 => m end) tpl.

End Text.

Import Text.

(** ** The import rewriter *)

Module UpdateImports.

Definition IMPORT_MAPPINGS : list (string * string) := [
  ("com.demo.auth.entity.User",
   "com.demo.auth.modules.user.entity.User");
  ("com.demo.auth.entity.Role",
   "com.demo.auth.modules.role.entity.Role");
  ("com.demo.auth.entity.RoleType",
   "com.demo.auth.modules.role.entity.RoleType");
  ("com.demo.auth.entity.Permission",
   "com.demo.auth.modules.permission.entity.Permission");
  ("com.demo.auth.entity.RolePermission",
   "com.demo.auth.modules.permission.entity.RolePermission");
  ("com.demo.auth.repository.UserRepository",
   "com.demo.auth.modules.user.repository.UserRepository");
  ("com.demo.auth.repository.RoleRepository",
   "com.demo.auth.modules.role.repository.RoleRepository");
  ("com.demo.auth.service.UserService",
   "com.demo.auth.modules.user.service.UserService");
  ("com.demo.auth.service.UserDetailsServiceImpl",
   "com.demo.auth.modules.user.service.UserDetailsServiceImpl");
  ("com.demo.auth.service.UserRegistrationService",
   "com.demo.auth.modules.user.service.UserRegistrationService");
  ("com.demo.auth.service.AuthenticationService",
   "com.demo.auth.modules.authentication.service.AuthenticationService");
  ("com.demo.auth.service.JwtService",
   "com.demo.auth.modules.authentication.service.JwtService");
  ("com.demo.auth.service.StatelessRefreshTokenService",
   "com.demo.auth.modules.authentication.service.StatelessRefreshTokenService");
  ("com.demo.auth.service.RoleService",
   "com.demo.auth.modules.role.service.RoleService");
  ("com.demo.auth.controller.UserController",
   "com.demo.auth.modules.user.controller.UserController");
  ("com.demo.auth.controller.RegistrationController",
   "com.demo.auth.modules.user.controller.RegistrationController");
  ("com.demo.auth.controller.AuthController",
   "com.demo.auth.modules.authentication.controller.AuthenticationController");
  ("com.demo.auth.service.dto.UserInfoDto",
   "com.demo.auth.modules.user.dto.response.UserInfoDto");
  ("com.demo.auth.dto.UserDTO",
   "com.demo.auth.modules.user.dto.response.UserDTO");
  ("com.demo.auth.dto.RegistrationRequestDto",
   "com.demo.auth.modules.user.dto.request.RegistrationRequestDto");
  ("com.demo.auth.dto.RegistrationResponseDto",
   "com.demo.auth.modules.user.dto.response.RegistrationResponseDto");
  ("com.demo.auth.service.dto.RefreshTokenRequestDto",
   "com.demo.auth.modules.authentication.dto.request.RefreshTokenRequestDto");
  ("com.demo.auth.dto.LoginRequestDto",
   "com.demo.auth.modules.authentication.dto.request.LoginRequestDto");
  ("com.demo.auth.dto.AuthenticationRequestDto",
   "com.demo.auth.modules.authentication.dto.request.AuthenticationRequestDto");
  ("com.demo.auth.dto.AuthenticationResponseDto",
   "com.demo.auth.modules.authentication.dto.response.AuthenticationResponseDto");
  ("com.demo.auth.mapper.UserMapper",
   "com.demo.auth.modules.user.mapper.UserMapper");
  ("com.demo.auth.mapper.UserDtoMapper",
   "com.demo.auth.modules.user.mapper.UserDtoMapper");
  ("com.demo.auth.security.custom.CustomJwtConfig",
   "com.demo.auth.modules.authentication.security.jwt.custom.CustomJwtConfig");
  ("com.demo.auth.security.custom.CustomJwtAuthenticationProvider",
   "com.demo.auth.modules.authentication.security.jwt.custom.CustomJwtAuthenticationProvider");
  ("com.demo.auth.security.custom.CustomJwtAuthenticationToken",
   "com.demo.auth.modules.authentication.security.jwt.custom.CustomJwtAuthenticationToken");
  ("com.demo.auth.security.custom.CustomJwtValidationService",
   "com.demo.auth.modules.authentication.security.jwt.custom.CustomJwtValidationService");
  ("com.demo.auth.security.keycloak.KeycloakJwtConfig",
   "com.demo.auth.modules.authentication.security.jwt.keycloak.KeycloakJwtConfig");
  ("com.demo.auth.security.keycloak.KeycloakJwtAuthenticationProvider",
   "com.demo.auth.modules.authentication.security.jwt.keycloak.KeycloakJwtAuthenticationProvider");
  ("com.demo.auth.security.keycloak.KeycloakJwtAuthenticationToken",
   "com.demo.auth.modules.authentication.security.jwt.keycloak.KeycloakJwtAuthenticationToken");
  ("com.demo.auth.security.keycloak.KeycloakJwtAuthenticationConverter",
   "com.demo.auth.modules.authentication.security.jwt.keycloak.KeycloakJwtAuthenticationConverter");
  ("com.demo.auth.security.keycloak.KeycloakTokenValidationService",
   "com.demo.auth.modules.authentication.security.jwt.keycloak.KeycloakTokenValidationService");
  ("com.demo.auth.security.keycloak.KeycloakRoleConverter",
   "com.demo.auth.modules.authentication.security.jwt.keycloak.KeycloakRoleConverter");
  ("com.demo.auth.security.keycloak.KeycloakProperties",
   "com.demo.auth.modules.authentication.security.jwt.keycloak.KeycloakProperties");
  ("com.demo.auth.security.keycloak.KeycloakSecurityAuditLogger",
   "com.demo.auth.modules.authentication.security.jwt.keycloak.KeycloakSecurityAuditLogger");
  ("com.demo.auth.security.common.AbstractJwtAuthenticationProvider",
   "com.demo.auth.modules.authentication.security.jwt.common.AbstractJwtAuthenticationProvider");
  ("com.demo.auth.security.common.AbstractJwtValidationService",
   "com.demo.auth.modules.authentication.security.jwt.common.AbstractJwtValidationService");
  ("com.demo.auth.security.common.JwtAuthenticationToken",
   "com.demo.auth.modules.authentication.security.jwt.common.JwtAuthenticationToken");
  ("com.demo.auth.security.common.JwtTokenValidationService",
   "com.demo.auth.modules.authentication.security.jwt.common.JwtTokenValidationService");
  ("com.demo.auth.security.common.JwtValidationResult",
   "com.demo.auth.modules.authentication.security.jwt.common.JwtValidationResult");
  ("com.demo.auth.security.common.TokenType",
   "com.demo.auth.modules.authentication.security.jwt.common.TokenType");
  ("com.demo.auth.security.filters.JwtAuthenticationFilter",
   "com.demo.auth.modules.authentication.security.filters.JwtAuthenticationFilter");
  ("com.demo.auth.security.filters.JwtAuthenticationFilterRouting",
   "com.demo.auth.modules.authentication.security.filters.JwtAuthenticationFilterRouting");
  ("com.demo.auth.config.ProvidersSecurityConfiguration",
   "com.demo.auth.common.config.ProvidersSecurityConfiguration");
  ("com.demo.auth.config.AuthCacheConfiguration",
   "com.demo.auth.common.config.AuthCacheConfiguration");
  ("com.demo.auth.config.FallbackJwtConfig",
   "com.demo.auth.common.config.FallbackJwtConfig");
  ("com.demo.auth.config.RetryConfiguration",
   "com.demo.auth.common.config.RetryConfiguration");
  ("com.demo.auth.service.AuthDatabaseService",
   "com.demo.auth.common.config.AuthDatabaseService");
  ("com.demo.auth.service.AuthSecurityService",
   "com.demo.auth.common.config.AuthSecurityService");
  ("com.demo.auth.controller.CacheController",
   "com.demo.auth.common.config.CacheController");
  ("com.demo.auth.security.SecurityConfigurationFactory",
   "com.demo.auth.common.security.SecurityConfigurationFactory");
  ("com.demo.auth.security.SecurityProperties",
   "com.demo.auth.common.security.SecurityProperties");
  ("com.demo.auth.security.PasswordEncoderConfig",
   "com.demo.auth.common.security.PasswordEncoderConfig");
  ("com.demo.auth.security.RateLimitingConfig",
   "com.demo.auth.common.security.RateLimitingConfig");
  ("com.demo.auth.security.SecurityConfiguration",
   "com.demo.auth.common.security.SecurityConfiguration");
  ("com.demo.auth.security.CustomBearerTokenAuthenticationEntryPoint",
   "com.demo.auth.common.security.CustomBearerTokenAuthenticationEntryPoint");
  ("com.demo.auth.service.AuthCacheService",
   "com.demo.auth.common.cache.AuthCacheService")
]%string.

(** The two substitutions of one loop iteration. [re.escape] makes the
    old name a literal of the pattern, and the replacements of the table
    hold no backslash, so [re.sub] uses them as they are. *)
Definition exact_body (old_import : text) : text := old_import ++ T ";".
Definition new_statement (new_import : text) : text :=
  T "import " ++ new_import ++ T ";".
Definition wild_body (old_import : text) : text :=
  rsplit_dot old_import ++ T ".*;".
Definition new_wildcard (new_import : text) : text :=
  T "import " ++ rsplit_dot new_import ++ T ".*;".

Definition update_one (content : text) (m : string * string) : text :=
  let old_import := T m.1 in
  let new_import := T m.2 in
  let content := re_sub (exact_body old_import) (new_statement new_import) content in
  re_sub (wild_body old_import) (new_wildcard new_import) content.

(** The loop over [IMPORT_MAPPINGS.items()], in insertion order. *)
Definition update_all (mappings : list (string * string)) (content : text) : text :=
  fold_left update_one mappings content.

Definition rewrite_text (content : text) : text :=
  update_all IMPORT_MAPPINGS content.

End UpdateImports.

Import UpdateImports.

(** ** Statements and segments

    Every match of an import pattern ends at a [;] and holds no other one,
    so a substitution acts on each [;]-terminated segment of the text on
    its own. The definitions below describe that action; the theorems
    relate them to [re_sub]. *)

Module Seg.

(** No white space and no [;]: the shape of a qualified name. *)
Definition clean (t : text) : bool :=
  forallb (fun c => negb (is_space c) && negb (Ascii.eqb c semi)) t.

Definition nosemi (t : text) : bool :=
  forallb (fun c => negb (Ascii.eqb c semi)) t.

(** [t] is a non-empty run of white space followed by [lit]. *)
Fixpoint spaces_lit (lit t : text) : bool :=
  match t with
  | c :: t' => is_space c && (spaces_lit lit t' || text_eqb t' lit)
  | [] => false
  end.

(** [seg] is the statement [import <white space> lit], without its [;]. *)
Definition stmtb (lit seg : text) : bool :=
  match strip_prefix (T "import") seg with
  | Some t => spaces_lit lit t
  | None => false
  end.

(** The action of one substitution on a segment. *)
Fixpoint fix_seg (lit r seg : text) : text :=
  if stmtb lit seg then T "import " ++ r
  else match seg with
       | [] => []
       | c :: t => c :: fix_seg lit r t
       end.

(** Some suffix of [seg] is the statement of [lit]. *)
Fixpoint seg_has (lit seg : text) : bool :=
  stmtb lit seg ||
  match seg with
  | [] => false
  | _ :: t => seg_has lit t
  end.

Definition nospace (t : text) : bool :=
  forallb (fun c => negb (is_space c)) t.

(** The pattern [import\s+<body>] matches somewhere in [s]. *)
Fixpoint occursb (body s : text) : bool :=
  match match_import body s with
  | Some _ => true
  | None => match s with
            | [] => false
            | _ :: t => occursb body t
            end
  end.

End Seg.

(** ** The rewriter as a list of rules

    Each mapping entry gives two substitutions: the statement of the old
    name, and the wildcard statement of the old package. A rule
    [(lit, r)] stands for the pattern [import\s+lit;] and the replacement
    [import r;]. *)

Module Rules.

Import Seg.

Definition rules_of (mappings : list (string * string)) : list (text * text) :=
  flat_map (fun m =>
    [ (T m.1, T m.2);
      (rsplit_dot (T m.1) ++ T ".*", rsplit_dot (T m.2) ++ T ".*") ])
    mappings.

Definition apply_rule (content : text) (rl : text * text) : text :=
  re_sub (rl.1 ++ [semi]) (T "import " ++ rl.2 ++ [semi]) content.

Definition apply_all (rules : list (text * text)) (content : text) : text :=
  fold_left apply_rule rules content.

Definition fix_all (rules : list (text * text)) (seg : text) : text :=
  fold_left (fun s rl => fix_seg rl.1 rl.2 s) rules seg.

(** The replacement of the first rule, in order, whose name is [a]. *)
Fixpoint lookup_rule (rules : list (text * text)) (a : text) : option text :=
  match rules with
  | [] => None
  | rl :: rules' => if text_eqb a rl.1 then Some rl.2 else lookup_rule rules' a
  end.

(** Names and replacements are qualified names. *)
Definition rules_ok (rules : list (text * text)) : bool :=
  forallb (fun rl => clean rl.1 && clean rl.2) rules.

(** No replacement is itself the name of a rule. *)
Definition rules_closed (rules : list (text * text)) : bool :=
  forallb (fun rl => negb (existsb (fun rl' => text_eqb rl.2 rl'.1) rules))
    rules.

End Rules.

(** The first entry of the table, in order, with the package of [old]:
    the entry whose wildcard substitution rewrites [import pkg.*;]. *)
Definition first_same_package (mappings : list (string * string))
    (old : string) : option (string * string) :=
  find (fun m => text_eqb (rsplit_dot (T m.1)) (rsplit_dot (T old))) mappings.

(** ** The file system

    A tree of nodes under the script's [BASE_PATH], keyed by relative
    path; the root is the empty path and is a directory. Files hold text
    and metadata (permission bits and modification time); the clock gives
    the time of the next write. Symbolic links, permissions that deny
    access and decoding errors are outside the model, and the platform is
    POSIX: [write_text] writes a newline as it is. *)

Module FS.

Abbreviation path := (list string).

Record meta := Meta { mode : N; mtime : N }.

Inductive node :=
  | File (content : text) (md : meta)
  | Dir.

Record state := State { files : gmap path node; clock : N }.

Definition node_at (fs : gmap path node) (p : path) : option node :=
  match p with
  | [] => Some Dir
  | _ => fs !! p
  end.

(** [Path.exists()] *)
Definition exists_ (st : state) (p : path) : bool :=
  match node_at (files st) p with
  | Some _ => true
  | None => false
  end.

Definition is_dir (fs : gmap path node) (p : path) : bool :=
  match node_at fs p with
  | Some Dir => true
  | _ => false
  end.

(** [Path.parent] and [Path.name] *)
Definition parent (p : path) : path := removelast p.
Definition name (p : path) : string := default ""%string (last p).

(** [Path.mkdir(parents=True, exist_ok=True)]: the missing directories
    along [pre ++ rest] are created, those present are kept, and a file
    in the way raises ([None]). *)
Fixpoint mkdir_from (fs : gmap path node) (pre rest : path)
    : option (gmap path node) :=
  match rest with
  | [] => Some fs
  | c :: rest' =>
      let q := pre ++ [c] in
      match fs !! q with
      | None => mkdir_from (<[q := Dir]> fs) q rest'
      | Some Dir => mkdir_from fs q rest'
      | Some (File _ _) => None
      end
  end.

Definition mkdir_parents (st : state) (p : path) : option state :=
  match mkdir_from (files st) [] p with
  | Some fs => Some (State fs (clock st))
  | None => None
  end.

(** [shutil.copy2(src, dst)]: into [dst] under the name of [src] when
    [dst] is a directory; content and metadata of [src] are copied.
    [None] when it raises: [src] is no regular file, source and target
    are the same file, the target is a directory or has no directory to
    be in. *)
Definition copy_target (fs : gmap path node) (src dst : path) : path :=
  if is_dir fs dst then dst ++ [name src] else dst.

Definition copy2 (st : state) (src dst : path) : option state :=
  let fs := files st in
  let dst' := copy_target fs src dst in
  match node_at fs src with
  | Some (File c md) =>
      if bool_decide (src = dst') then None
      else if is_dir fs dst' then None
      else if is_dir fs (parent dst') then
        Some (State (<[dst' := File c md]> fs) (clock st))
      else None
  | _ => None
  end.

(** Universal newlines of text mode: [\r\n] and [\r] are read as [\n]. *)
Definition cr : ascii := "013"%char.

Fixpoint universal_newlines (s : text) : text :=
  match s with
  | [] => []
  | c :: t =>
      if Ascii.eqb c cr then
        newline :: match t with
                   | d :: t' => if Ascii.eqb d newline
                                then universal_newlines t'
                                else universal_newlines t
                   | [] => []
                   end
      else c :: universal_newlines t
  end.

Definition no_cr (c : ascii) : bool := negb (Ascii.eqb c cr).

(** [Path.read_text()]; [None] when it raises. *)
Definition read_text (st : state) (p : path) : option text :=
  match node_at (files st) p with
  | Some (File c _) => Some (universal_newlines c)
  | _ => None
  end.

(** Permission bits of a file created by [open]: 0o644. *)
Definition new_mode : N := 420.

(** [Path.write_text(content)]; [None] when it raises. *)
Definition write_text (st : state) (p : path) (content : text) : option state :=
  let fs := files st in
  let now := clock st in
  match node_at fs p with
  | Some Dir => None
  | Some (File _ md) =>
      Some (State (<[p := File content (Meta (mode md) now)]> fs) (now + 1))
  | None =>
      if is_dir fs (parent p) then
        Some (State (<[p := File content (Meta new_mode now)]> fs) (now + 1))
      else None
  end.

(** The name matches [*.java]. *)
Definition is_java (n : string) : bool :=
  match strip_prefix (rev (T ".java")) (rev (T n)) with
  | Some _ => true
  | None => false
  end.

(** The paths of the tree, in the order the map lists them. *)
Definition paths (fs : gmap path node) : list path := (map_to_list fs).*1.

(** Every ancestor of a node is a directory. *)
Definition well_formed (fs : gmap path node) : bool :=
  forallb (fun p => negb (bool_decide (p = [])) && is_dir fs (parent p))
    (paths fs).

(** [BASE_PATH.glob("<top>/**/*.java")] *)
Definition under_java (top : string) (p : path) : bool :=
  match p with
  | t :: (_ :: _) as rest => String.eqb t top && is_java (name rest)
  | _ => false
  end.

Definition glob_under (fs : gmap path node) (top : string) : list path :=
  List.filter (under_java top) (paths fs).

(** [BASE_PATH.glob("**/*.java")] *)
Definition any_java (p : path) : bool :=
  match p with
  | [] => false
  | _ => is_java (name p)
  end.

Definition glob_all (fs : gmap path node) : list path :=
  List.filter any_java (paths fs).

End FS.

Import FS.

(** What the scripts print, without the banners. *)
Inductive event :=
  | EvSourceNotFound (src : path)
  | EvMoved (src dest : path)
  | EvErrorMoving (src : path)
  | EvMoveSummary (moved failed : nat)
  | EvPackageUpdated (new_package : text)
  | EvPackageError (p : path)
  | EvPackagesUpdated (n : nat)
  | EvImportError (p : path)
  | EvImportUpdated (p : path)
  | EvImportsUpdated (n : nat).

(** ** The relocator *)

Module Migrate.

Definition MIGRATIONS : list (list string * list string) := [
  (["entity"; "User.java"],
   ["modules"; "user"; "entity"; "User.java"]);
  (["repository"; "UserRepository.java"],
   ["modules"; "user"; "repository"; "UserRepository.java"]);
  (["service"; "UserService.java"],
   ["modules"; "user"; "service"; "UserService.java"]);
  (["service"; "UserDetailsServiceImpl.java"],
   ["modules"; "user"; "service"; "UserDetailsServiceImpl.java"]);
  (["service"; "UserRegistrationService.java"],
   ["modules"; "user"; "service"; "UserRegistrationService.java"]);
  (["controller"; "UserController.java"],
   ["modules"; "user"; "controller"; "UserController.java"]);
  (["controller"; "RegistrationController.java"],
   ["modules"; "user"; "controller"; "RegistrationController.java"]);
  (["mapper"; "UserMapper.java"],
   ["modules"; "user"; "mapper"; "UserMapper.java"]);
  (["mapper"; "UserDtoMapper.java"],
   ["modules"; "user"; "mapper"; "UserDtoMapper.java"]);
  (["service"; "dto"; "UserInfoDto.java"],
   ["modules"; "user"; "dto"; "response"; "UserInfoDto.java"]);
  (["dto"; "UserDTO.java"],
   ["modules"; "user"; "dto"; "response"; "UserDTO.java"]);
  (["dto"; "RegistrationRequestDto.java"],
   ["modules"; "user"; "dto"; "request"; "RegistrationRequestDto.java"]);
  (["dto"; "RegistrationResponseDto.java"],
   ["modules"; "user"; "dto"; "response"; "RegistrationResponseDto.java"]);
  (["service"; "AuthenticationService.java"],
   ["modules"; "authentication"; "service"; "AuthenticationService.java"]);
  (["service"; "JwtService.java"],
   ["modules"; "authentication"; "service"; "JwtService.java"]);
  (["service"; "StatelessRefreshTokenService.java"],
   ["modules"; "authentication"; "service"; "StatelessRefreshTokenService.java"]);
  (["controller"; "AuthController.java"],
   ["modules"; "authentication"; "controller"; "AuthenticationController.java"]);
  (["dto"; "LoginRequestDto.java"],
   ["modules"; "authentication"; "dto"; "request"; "LoginRequestDto.java"]);
  (["dto"; "AuthenticationRequestDto.java"],
   ["modules"; "authentication"; "dto"; "request"; "AuthenticationRequestDto.java"]);
  (["dto"; "AuthenticationResponseDto.java"],
   ["modules"; "authentication"; "dto"; "response"; "AuthenticationResponseDto.java"]);
  (["service"; "dto"; "RefreshTokenRequestDto.java"],
   ["modules"; "authentication"; "dto"; "request"; "RefreshTokenRequestDto.java"]);
  (["security"; "custom"; "CustomJwtConfig.java"],
   ["modules"; "authentication"; "security"; "jwt"; "custom"; "CustomJwtConfig.java"]);
  (["security"; "custom"; "CustomJwtAuthenticationProvider.java"],
   ["modules"; "authentication"; "security"; "jwt"; "custom"; "CustomJwtAuthenticationProvider.java"]);
  (["security"; "custom"; "CustomJwtAuthenticationToken.java"],
   ["modules"; "authentication"; "security"; "jwt"; "custom"; "CustomJwtAuthenticationToken.java"]);
  (["security"; "custom"; "CustomJwtValidationService.java"],
   ["modules"; "authentication"; "security"; "jwt"; "custom"; "CustomJwtValidationService.java"]);
  (["security"; "keycloak"; "KeycloakJwtConfig.java"],
   ["modules"; "authentication"; "security"; "jwt"; "keycloak"; "KeycloakJwtConfig.java"]);
  (["security"; "keycloak"; "KeycloakJwtAuthenticationProvider.java"],
   ["modules"; "authentication"; "security"; "jwt"; "keycloak"; "KeycloakJwtAuthenticationProvider.java"]);
  (["security"; "keycloak"; "KeycloakJwtAuthenticationToken.java"],
   ["modules"; "authentication"; "security"; "jwt"; "keycloak"; "KeycloakJwtAuthenticationToken.java"]);
  (["security"; "keycloak"; "KeycloakJwtAuthenticationConverter.java"],
   ["modules"; "authentication"; "security"; "jwt"; "keycloak"; "KeycloakJwtAuthenticationConverter.java"]);
  (["security"; "keycloak"; "KeycloakTokenValidationService.java"],
   ["modules"; "authentication"; "security"; "jwt"; "keycloak"; "KeycloakTokenValidationService.java"]);
  (["security"; "keycloak"; "KeycloakRoleConverter.java"],
   ["modules"; "authentication"; "security"; "jwt"; "keycloak"; "KeycloakRoleConverter.java"]);
  (["security"; "keycloak"; "KeycloakProperties.java"],
   ["modules"; "authentication"; "security"; "jwt"; "keycloak"; "KeycloakProperties.java"]);
  (["security"; "keycloak"; "KeycloakSecurityAuditLogger.java"],
   ["modules"; "authentication"; "security"; "jwt"; "keycloak"; "KeycloakSecurityAuditLogger.java"]);
  (["security"; "common"; "AbstractJwtAuthenticationProvider.java"],
   ["modules"; "authentication"; "security"; "jwt"; "common"; "AbstractJwtAuthenticationProvider.java"]);
  (["security"; "common"; "AbstractJwtValidationService.java"],
   ["modules"; "authentication"; "security"; "jwt"; "common"; "AbstractJwtValidationService.java"]);
  (["security"; "common"; "JwtAuthenticationToken.java"],
   ["modules"; "authentication"; "security"; "jwt"; "common"; "JwtAuthenticationToken.java"]);
  (["security"; "common"; "JwtTokenValidationService.java"],
   ["modules"; "authentication"; "security"; "jwt"; "common"; "JwtTokenValidationService.java"]);
  (["security"; "common"; "JwtValidationResult.java"],
   ["modules"; "authentication"; "security"; "jwt"; "common"; "JwtValidationResult.java"]);
  (["security"; "common"; "TokenType.java"],
   ["modules"; "authentication"; "security"; "jwt"; "common"; "TokenType.java"]);
  (["security"; "filters"; "JwtAuthenticationFilter.java"],
   ["modules"; "authentication"; "security"; "filters"; "JwtAuthenticationFilter.java"]);
  (["security"; "filters"; "JwtAuthenticationFilterRouting.java"],
   ["modules"; "authentication"; "security"; "filters"; "JwtAuthenticationFilterRouting.java"]);
  (["entity"; "Role.java"],
   ["modules"; "role"; "entity"; "Role.java"]);
  (["entity"; "RoleType.java"],
   ["modules"; "role"; "entity"; "RoleType.java"]);
  (["repository"; "RoleRepository.java"],
   ["modules"; "role"; "repository"; "RoleRepository.java"]);
  (["service"; "RoleService.java"],
   ["modules"; "role"; "service"; "RoleService.java"]);
  (["service"; "mapper"; "RoleMapper.java"],
   ["modules"; "role"; "mapper"; "RoleMapper.java"]);
  (["entity"; "Permission.java"],
   ["modules"; "permission"; "entity"; "Permission.java"]);
  (["entity"; "RolePermission.java"],
   ["modules"; "permission"; "entity"; "RolePermission.java"]);
  (["config"; "ProvidersSecurityConfiguration.java"],
   ["common"; "config"; "ProvidersSecurityConfiguration.java"]);
  (["config"; "AuthCacheConfiguration.java"],
   ["common"; "config"; "AuthCacheConfiguration.java"]);
  (["config"; "FallbackJwtConfig.java"],
   ["common"; "config"; "FallbackJwtConfig.java"]);
  (["config"; "RetryConfiguration.java"],
   ["common"; "config"; "RetryConfiguration.java"]);
  (["security"; "SecurityConfigurationFactory.java"],
   ["common"; "security"; "SecurityConfigurationFactory.java"]);
  (["security"; "SecurityProperties.java"],
   ["common"; "security"; "SecurityProperties.java"]);
  (["security"; "PasswordEncoderConfig.java"],
   ["common"; "security"; "PasswordEncoderConfig.java"]);
  (["security"; "RateLimitingConfig.java"],
   ["common"; "security"; "RateLimitingConfig.java"]);
  (["security"; "SecurityConfiguration.java"],
   ["common"; "security"; "SecurityConfiguration.java"]);
  (["security"; "CustomBearerTokenAuthenticationEntryPoint.java"],
   ["common"; "security"; "CustomBearerTokenAuthenticationEntryPoint.java"]);
  (["service"; "AuthCacheService.java"],
   ["common"; "cache"; "AuthCacheService.java"]);
  (["service"; "exception"; "AuthenticationException.java"],
   ["common"; "exception"; "AuthenticationException.java"]);
  (["service"; "exception"; "ResourceNotFoundException.java"],
   ["common"; "exception"; "ResourceNotFoundException.java"]);
  (["service"; "AuthDatabaseService.java"],
   ["common"; "config"; "AuthDatabaseService.java"]);
  (["service"; "AuthSecurityService.java"],
   ["common"; "config"; "AuthSecurityService.java"]);
  (["controller"; "CacheController.java"],
   ["common"; "config"; "CacheController.java"])
]%string.

(** [move_file]: the returned flag, [None] when an exception leaves the
    function; the file system afterwards; what was printed. The
    directories are created outside the [try] block, the copy inside. *)
Definition move_file (st : state) (src_rel dest_rel : path)
    : option bool * state * list event :=
  if negb (exists_ st src_rel) then
    (Some false, st, [EvSourceNotFound src_rel])
  else
    match mkdir_parents st (parent dest_rel) with
    | None => (None, st, [])
    | Some st1 =>
        match copy2 st1 src_rel dest_rel with
        | Some st2 => (Some true, st2, [EvMoved src_rel dest_rel])
        | None => (Some false, st1, [EvErrorMoving src_rel])
        end
    end.

(** [".".join(parts)] *)
Fixpoint join_dots (parts : list text) : text :=
  match parts with
  | [] => []
  | [a] => a
  | a :: rest => a ++ dot :: join_dots rest
  end.

(** The package of a file, from its directory relative to the root. *)
(** The components written one after the other with a dot before each
    but the first: what "dot-joined" says, to compare [join_dots] with. *)
Definition dot_joined (parts : list text) : text :=
  match parts with
  | [] => []
  | a :: rest => a ++ flat_map (fun b => dot :: b) rest
  end.

Definition new_package (p : path) : text :=
  T "com.demo.auth." ++ join_dots (map T (parent p)).

(** [[^;]+;] at the head of [s]. *)
Fixpoint upto_semi (s : text) : option text :=
  match s with
  | [] => None
  | c :: t => if Ascii.eqb c semi then Some t else upto_semi t
  end.

Definition not_semi_plus (s : text) : option text :=
  match s with
  | [] => None
  | c :: t => if Ascii.eqb c semi then None else upto_semi t
  end.

(** [package\s+com\.demo\.auth\.[^;]+;] at the head of [s]. *)
Definition match_package (s : text) : option text :=
  match strip_prefix (T "package") s with
  | Some t =>
      match spaces_then (T "com.demo.auth.") t with
      | Some u => not_semi_plus u
      | None => None
      end
  | None => None
  end.

(** [re.sub] of the pattern above with [^] under [re.MULTILINE] and no
    [count]: every match that starts at the beginning of the text or
    after a newline is replaced. [bol] tells whether the scan is at such
    a place. *)
Fixpoint sub_package_fuel (fuel : nat) (repl : text) (bol : bool) (s : text)
    : text :=
  match fuel with
  | O => s
  | S fuel' =>
      match (if bol then match_package s else None) with
      | Some rest => repl ++ sub_package_fuel fuel' repl false rest
      | None =>
          match s with
          | [] => []
          | c :: t => c :: sub_package_fuel fuel' repl (Ascii.eqb c newline) t
          end
      end
  end.

Definition sub_package_from (repl : text) (bol : bool) (s : text) : text :=
  sub_package_fuel (S (length s)) repl bol s.

Definition sub_package (repl : text) (s : text) : text :=
  sub_package_from repl true s.

(** No match of the declaration pattern starts, at the beginning of a
    line, inside [pre] when [rest] follows it. *)
Fixpoint no_decl_in (bol : bool) (pre rest : text) : bool :=
  match pre with
  | [] => true
  | c :: t =>
      match (if bol then match_package (pre ++ rest) else None) with
      | Some _ => false
      | None => no_decl_in (Ascii.eqb c newline) t rest
      end
  end.

(** Whether the place after [pre] is the beginning of a line. *)
Fixpoint bol_after (bol : bool) (pre : text) : bool :=
  match pre with
  | [] => bol
  | c :: t => bol_after (Ascii.eqb c newline) t
  end.

Definition declaration (p : path) : text :=
  T "package " ++ new_package p ++ T ";".

(** The same [re.sub] with a template that has been read: each match is
    replaced by the expansion of the template on the matched text. *)
Fixpoint sub_template_fuel (fuel : nat) (tpl : list item) (bol : bool)
    (s : text) : text :=
  match fuel with
  | O => s
  | S fuel' =>
      match (if bol then match_package s else None) with
      | Some rest =>
          expand tpl (take (length s - length rest) s)
          ++ sub_template_fuel fuel' tpl false rest
      | None =>
          match s with
          | [] => []
          | c :: t =>
              c :: sub_template_fuel fuel' tpl (Ascii.eqb c newline) t
          end
      end
  end.

Definition sub_template (tpl : list item) (s : text) : text :=
  sub_template_fuel (S (length s)) tpl true s.

(** [update_package_declaration]. The new declaration is handed to
    [re.sub] as its replacement, so it is read as a template. *)
Definition update_package_declaration (st : state) (file_path : path)
    : bool * state * list event :=
  if negb (exists_ st file_path) then (false, st, [])
  else
    match read_text st file_path with
    | None => (false, st, [EvPackageError file_path])
    | Some content =>
        match parse_template (declaration file_path) with
        | None => (false, st, [EvPackageError file_path])
        | Some tpl =>
            match write_text st file_path (sub_template tpl content) with
            | None => (false, st, [EvPackageError file_path])
            | Some st' =>
                (true, st', [EvPackageUpdated (new_package file_path)])
            end
        end
    end.

(** The first loop of [main]; the flag of the result tells whether the
    loop ran to its end. *)
Fixpoint move_all (pairs : list (path * path)) (st : state)
    (moved failed : nat) : bool * state * nat * nat * list event :=
  match pairs with
  | [] => (true, st, moved, failed, [])
  | (src, dest) :: pairs' =>
      match move_file st src dest with
      | (None, st', log) => (false, st', moved, failed, log)
      | (Some true, st', log) =>
          let '(ok, st'', m, f, log') := move_all pairs' st' (S moved) failed in
          (ok, st'', m, f, log ++ log')
      | (Some false, st', log) =>
          let '(ok, st'', m, f, log') := move_all pairs' st' moved (S failed) in
          (ok, st'', m, f, log ++ log')
      end
  end.

(** The second loop of [main]. *)
Fixpoint update_packages (java_files : list path) (st : state)
    (updated : nat) : state * nat * list event :=
  match java_files with
  | [] => (st, updated, [])
  | p :: rest =>
      let '(r, st', log) := update_package_declaration st p in
      let '(st'', n, log') :=
        update_packages rest st' (if r then S updated else updated) in
      (st'', n, log ++ log')
  end.

Definition java_files (st : state) : list path :=
  glob_under (files st) "modules" ++ glob_under (files st) "common".

(** The declaration-rewrite phase of [main]. *)
Definition rewrite_phase (st : state) : state * list event :=
  let '(st', n, log) := update_packages (java_files st) st 0 in
  (st', log ++ [EvPackagesUpdated n]).

(** [main]: whether it ran to completion, the file system afterwards,
    what was printed. *)
Definition main_on (pairs : list (path * path)) (st : state)
    : bool * state * list event :=
  match move_all pairs st 0 0 with
  | (false, st1, _, _, log) => (false, st1, log)
  | (true, st1, moved, failed, log) =>
      let '(st2, log') := rewrite_phase st1 in
      (true, st2, log ++ [EvMoveSummary moved failed] ++ log')
  end.

Definition main (st : state) : bool * state * list event :=
  main_on MIGRATIONS st.

End Migrate.

(** ** The import rewriter on files *)

Module ImportsMain.

(** [update_imports_in_file] *)
Definition update_imports_in_file (st : state) (file_path : path)
    : bool * state * list event :=
  match read_text st file_path with
  | None => (false, st, [EvImportError file_path])
  | Some original_content =>
      let content := rewrite_text original_content in
      if bool_decide (content <> original_content) then
        match write_text st file_path content with
        | Some st' => (true, st', [])
        | None => (false, st, [EvImportError file_path])
        end
      else (false, st, [])
  end.

Fixpoint update_files (java_files : list path) (st : state) (updated : nat)
    : state * nat * list event :=
  match java_files with
  | [] => (st, updated, [])
  | p :: rest =>
      let '(r, st', log) := update_imports_in_file st p in
      let log := if r then log ++ [EvImportUpdated p] else log in
      let '(st'', n, log') :=
        update_files rest st' (if r then S updated else updated) in
      (st'', n, log ++ log')
  end.

(** [main] *)
Definition main (st : state) : state * list event :=
  let '(st', n, log) := update_files (glob_all (files st)) st 0 in
  (st', log ++ [EvImportsUpdated n]).

End ImportsMain.

(** A path outside the subtrees [modules/] and [common/]. *)
Definition outside (p : path) : bool :=
  match p with
  | t :: _ => negb (String.eqb t "modules" || String.eqb t "common")
  | [] => true
  end.

(** Two file systems agree on every path outside the two subtrees. *)
Definition agree_outside (st st' : state) : Prop :=
  forall p, outside p = true -> files st' !! p = files st !! p.

(** ** Example trees *)

Module Examples.

Local Open Scope string_scope.
Local Open Scope list_scope.

Definition md0 : meta := Meta 420 7.

Definition user_java : text :=
  T "package com.demo.auth.entity;" ++ [newline] ++
  T "import com.demo.auth.entity.Role;" ++ [newline].

(** The first source is there; nothing else. *)
Definition st_plain : state :=
  State (list_to_map [
    (["entity"], Dir);
    (["entity"; "User.java"], File user_java md0)]) 100.

(** A regular file named [modules] is in the way of the new directories. *)
Definition st_blocked : state :=
  State (list_to_map [
    (["entity"], Dir);
    (["entity"; "User.java"], File user_java md0);
    (["modules"], File (T "notes") md0)]) 100.

(** The first destination is an existing directory. *)
Definition st_dest_dir : state :=
  State (list_to_map [
    (["entity"], Dir);
    (["entity"; "User.java"], File user_java md0);
    (["modules"], Dir);
    (["modules"; "user"], Dir);
    (["modules"; "user"; "entity"], Dir);
    (["modules"; "user"; "entity"; "User.java"], Dir)]) 100.

(** ... and holds a directory of the source's name. *)
Definition st_dest_dir_full : state :=
  State (list_to_map [
    (["entity"], Dir);
    (["entity"; "User.java"], File user_java md0);
    (["modules"], Dir);
    (["modules"; "user"], Dir);
    (["modules"; "user"; "entity"], Dir);
    (["modules"; "user"; "entity"; "User.java"], Dir);
    (["modules"; "user"; "entity"; "User.java"; "User.java"], Dir)]) 100.

(** A relocated file with two declaration lines. *)
Definition two_decls : text :=
  T "package com.demo.auth.a;" ++ [newline] ++
  T "package com.demo.auth.b;" ++ [newline].

Definition st_two_decls : state :=
  State (list_to_map [
    (["modules"], Dir);
    (["modules"; "x"], Dir);
    (["modules"; "x"; "F.java"], File two_decls md0)]) 100.

(** The scenario of the specification: a file moved to [x/y/]. *)
Definition st_scenario : state :=
  State (list_to_map [
    (["x"], Dir);
    (["x"; "y"], Dir);
    (["x"; "y"; "Old.java"], File (T "package com.demo.auth.a.b;") md0)]) 100.

(** A relocated file in a directory whose name has a backslash: the
    four characters [a], [\], [n], [b]. *)
Definition st_backslash : state :=
  State (list_to_map [
    (["modules"], Dir);
    (["modules"; "a\nb"], Dir);
    (["modules"; "a\nb"; "F.java"],
       File (T "package com.demo.auth.old;") md0)]) 100.

(** A tree for the import rewriter: one file to rewrite, one to skip. *)
Definition st_imports : state :=
  State (list_to_map [
    (["A.java"], File (T "import com.demo.auth.entity.User;") md0);
    (["B.java"], File (T "import java.util.List;") md0)]) 100.

End Examples.

(** ** Notions for the whole runs *)

Module Runs.

Import Migrate ImportsMain.

(** The kind of a node: what a run that only rewrites text keeps. *)
Definition kind (n : option node) : option bool :=
  match n with
  | Some (File _ _) => Some true
  | Some Dir => Some false
  | None => None
  end.

(** The import rewriter has nothing left to do on [p]: [p] is no file,
    or the text it reads from [p] holds no statement to rewrite. *)
Definition settled (st : state) (p : path) : Prop :=
  match node_at (files st) p with
  | Some (File c _) =>
      rewrite_text (universal_newlines c) = universal_newlines c
  | _ => True
  end.

Definition is_import_updated (e : event) : bool :=
  match e with
  | EvImportUpdated _ => true
  | _ => false
  end.

Definition is_moved (e : event) : bool :=
  match e with
  | EvMoved _ _ => true
  | _ => false
  end.

Definition is_move_failure (e : event) : bool :=
  match e with
  | EvSourceNotFound _ | EvErrorMoving _ => true
  | _ => false
  end.

(** No node of the tree is inside [modules/] or [common/]: the state
    before a first migration. *)
Definition fresh (fs : gmap path node) : bool := forallb outside (paths fs).

(** Every node of [st] is still there in [st'], a file as a file and a
    directory as a directory. *)
Definition keeps (st st' : state) : Prop :=
  forall p n, files st !! p = Some n -> kind (files st' !! p) = kind (Some n).

(** What a migration table must satisfy for a first migration to place
    every file: sources outside the two subtrees and destinations inside
    them, with names matching [*.java] and no backslash on the way; no
    two pairs with the same destination; and no destination that is a
    directory on the way to another one. *)
Definition table_ok (pairs : list (path * path)) : bool :=
  forallb (fun pr =>
    outside pr.1 && negb (outside (parent pr.2)) &&
    (under_java "modules" pr.2 || under_java "common" pr.2) &&
    bool_decide (expand_template (declaration pr.2) =
                 Some (declaration pr.2))) pairs
  && bool_decide (NoDup pairs.*2)
  && forallb (fun pr =>
       forallb (fun pr' =>
         negb (bool_decide (pr'.2 `prefix_of` parent pr.2))) pairs) pairs.

(** The state of the tree when the pairs [done] have been processed,
    starting from [st0]: outside the two subtrees nothing changed; inside
    them the files are the copied sources and the directories are those
    on the way to a destination; and each source that was a file is at
    its destination. *)
Definition relocated (st0 : state) (done : list (path * path)) (st : state)
    : Prop :=
  agree_outside st0 st /\
  (forall p c md, outside p = false -> files st !! p = Some (File c md) ->
     exists src, In (src, p) done /\
       node_at (files st0) src = Some (File c md)) /\
  (forall p, outside p = false -> files st !! p = Some Dir ->
     exists pr, In pr done /\ p `prefix_of` parent pr.2) /\
  (forall src dest c md, In (src, dest) done ->
     node_at (files st0) src = Some (File c md) ->
     files st !! dest = Some (File c md)).

End Runs.

(** ** White space at the head of a text *)

Module Spaces.

Fixpoint skip_spaces (s : text) : text :=
  match s with
  | c :: t => if is_space c then skip_spaces t else s
  | [] => []
  end.

End Spaces.

(** * Theorems *)

(** ** Matching and substitution *)

Module TextFacts.

#[local] Arguments Ascii.eqb : simpl never.
#[local] Arguments is_space : simpl never.
#[local] Arguments semi : simpl never.
#[local] Arguments T : simpl never.
#[local] Arguments re_sub : simpl never.

Lemma strip_prefix_app p s : strip_prefix p (p ++ s) = Some s.
Proof.
  induction p as [|a p IH]; simpl; [done|].
  by rewrite Ascii.eqb_refl.
Qed.

Lemma strip_prefix_Some p s r : strip_prefix p s = Some r -> s = p ++ r.
Proof.
  revert s; induction p as [|a p IH]; intros s; simpl.
  - congruence.
  - destruct s as [|b s]; [done|].
    destruct (Ascii.eqb a b) eqn:E; [|done].
    apply Ascii.eqb_eq in E as ->. intros H. by rewrite (IH _ H).
Qed.

Lemma spaces_then_shorter body s r :
  spaces_then body s = Some r -> length r < length s.
Proof.
  revert r; induction s as [|c s IH]; intros r; simpl; [done|].
  destruct (is_space c); [|done].
  destruct (spaces_then body s) as [r'|] eqn:E.
  - intros [= <-]. specialize (IH _ eq_refl). lia.
  - intros H. apply strip_prefix_Some in H. subst s.
    rewrite length_app. lia.
Qed.

Lemma match_import_shorter body s r :
  match_import body s = Some r -> length r < length s.
Proof.
  unfold match_import.
  destruct (strip_prefix (T "import") s) as [t|] eqn:E; [|done].
  intros H. apply strip_prefix_Some in E. apply spaces_then_shorter in H.
  subst s. rewrite length_app. lia.
Qed.

Lemma re_sub_fuel_enough body repl n m s :
  length s < n -> length s < m ->
  re_sub_fuel n body repl s = re_sub_fuel m body repl s.
Proof.
  revert m s; induction n as [|n IH]; intros m s Hn Hm; [lia|].
  destruct m as [|m]; [lia|]. simpl.
  destruct (match_import body s) as [rest|] eqn:E.
  - apply match_import_shorter in E. f_equal. apply IH; lia.
  - destruct s as [|c t]; [done|]. simpl in *. f_equal. apply IH; lia.
Qed.

(** The scan of [re.sub], as an equation: the fuel of [re_sub] never
    runs out. *)
Lemma re_sub_eq body repl s :
  re_sub body repl s =
  match match_import body s with
  | Some rest => repl ++ re_sub body repl rest
  | None => match s with
            | [] => []
            | c :: t => c :: re_sub body repl t
            end
  end.
Proof.
  unfold re_sub at 1. simpl.
  destruct (match_import body s) as [rest|] eqn:E.
  - apply match_import_shorter in E. f_equal.
    apply re_sub_fuel_enough; lia.
  - destruct s as [|c t]; [done|]. simpl. f_equal.
Qed.


Lemma is_space_semi : is_space semi = false.
Proof. reflexivity. Qed.

Lemma nosemi_cons c t :
  Seg.nosemi (c :: t) = true <-> c <> semi /\ Seg.nosemi t = true.
Proof.
  unfold Seg.nosemi. simpl. rewrite andb_true_iff, negb_true_iff.
  split; intros [H1 H2]; (split; [|done]).
  - intros ->. by rewrite Ascii.eqb_refl in H1.
  - apply Ascii.eqb_neq. done.
Qed.

Lemma nosemi_app a b :
  Seg.nosemi (a ++ b) = Seg.nosemi a && Seg.nosemi b.
Proof. apply forallb_app. Qed.

Lemma text_eqb_eq a b : text_eqb a b = true <-> a = b.
Proof. unfold text_eqb. apply bool_decide_eq_true. Qed.

Lemma text_eqb_cons c a d b :
  text_eqb (c :: a) (d :: b) = Ascii.eqb c d && text_eqb a b.
Proof.
  apply eq_true_iff_eq.
  rewrite andb_true_iff, !text_eqb_eq, Ascii.eqb_eq.
  split; [intros [= -> ->]|intros [-> ->]]; done.
Qed.

(** Stripping a [;]-free literal sees nothing beyond the segment. *)
Lemma strip_prefix_seg p seg rest :
  Seg.nosemi p = true ->
  strip_prefix p (seg ++ semi :: rest) =
  (fun t => t ++ semi :: rest) <$> strip_prefix p seg.
Proof.
  revert seg; induction p as [|a p IH]; intros seg Hp; [done|].
  apply nosemi_cons in Hp as [Ha Hp].
  destruct seg as [|c seg]; simpl.
  - destruct (Ascii.eqb a semi) eqn:E; [|done].
    by apply Ascii.eqb_eq in E.
  - destruct (Ascii.eqb a c); [by apply IH|done].
Qed.

Lemma strip_body_seg lit t rest :
  Seg.nosemi lit = true -> Seg.nosemi t = true ->
  strip_prefix (lit ++ [semi]) (t ++ semi :: rest) =
  if text_eqb t lit then Some rest else None.
Proof.
  revert t; induction lit as [|a lit IH]; intros t Hl Ht.
  - destruct t as [|c t]; simpl; [done|].
    apply nosemi_cons in Ht as [Hc _].
    replace (text_eqb (c :: t) []) with false
      by (symmetry; by apply bool_decide_eq_false).
    destruct (Ascii.eqb semi c) eqn:E; [|done].
    apply Ascii.eqb_eq in E. congruence.
  - apply nosemi_cons in Hl as [Ha Hl].
    destruct t as [|c t]; simpl.
    + replace (text_eqb [] (a :: lit)) with false
        by (symmetry; by apply bool_decide_eq_false).
      destruct (Ascii.eqb a semi) eqn:E; [|done].
      by apply Ascii.eqb_eq in E.
    + apply nosemi_cons in Ht as [Hc Ht].
      rewrite text_eqb_cons, (Ascii.eqb_sym c a).
      destruct (Ascii.eqb a c); [by apply IH|done].
Qed.

Lemma spaces_then_seg lit t rest :
  Seg.nosemi lit = true -> Seg.nosemi t = true ->
  spaces_then (lit ++ [semi]) (t ++ semi :: rest) =
  if Seg.spaces_lit lit t then Some rest else None.
Proof.
  intros Hl. induction t as [|c t IH]; intros Ht; simpl.
  - by rewrite ?is_space_semi.
  - apply nosemi_cons in Ht as [Hc Ht].
    destruct (is_space c); [|done]. simpl.
    rewrite (IH Ht), (strip_body_seg _ _ _ Hl Ht).
    by destruct (Seg.spaces_lit lit t).
Qed.

(** A match of [import\s+lit;] at the head of a text whose first [;] closes
    the segment [seg] is the statement [seg] itself. *)
Lemma match_import_seg lit seg rest :
  Seg.nosemi lit = true -> Seg.nosemi seg = true ->
  match_import (lit ++ [semi]) (seg ++ semi :: rest) =
  if Seg.stmtb lit seg then Some rest else None.
Proof.
  intros Hl Hs. unfold match_import, Seg.stmtb.
  rewrite strip_prefix_seg by reflexivity.
  destruct (strip_prefix (T "import") seg) as [t|] eqn:E; simpl; [|done].
  apply spaces_then_seg; [done|].
  apply strip_prefix_Some in E. subst seg.
  rewrite nosemi_app in Hs. by apply andb_true_iff in Hs as [_ ?].
Qed.

(** What a match at the head of [s] is made of. *)
Lemma spaces_then_Some body s r :
  spaces_then body s = Some r ->
  exists ws, ws <> [] /\ forallb is_space ws = true /\ s = ws ++ body ++ r.
Proof.
  revert r; induction s as [|c s IH]; intros r; simpl; [done|].
  destruct (is_space c) eqn:Hc; [|done].
  destruct (spaces_then body s) as [r'|] eqn:E.
  - intros [= <-]. destruct (IH _ eq_refl) as (ws & _ & Hws & ->).
    exists (c :: ws). simpl. by rewrite Hc, Hws.
  - intros H. apply strip_prefix_Some in H. subst s.
    exists [c]. simpl. by rewrite Hc.
Qed.

Lemma match_import_Some body s r :
  match_import body s = Some r ->
  exists ws, ws <> [] /\ forallb is_space ws = true /\
             s = T "import" ++ ws ++ body ++ r.
Proof.
  unfold match_import.
  destruct (strip_prefix (T "import") s) as [t|] eqn:E; [|done].
  intros H. apply strip_prefix_Some in E.
  destruct (spaces_then_Some _ _ _ H) as (ws & ? & ? & ->). eauto.
Qed.

Lemma match_import_nosemi lit s :
  Seg.nosemi s = true -> match_import (lit ++ [semi]) s = None.
Proof.
  intros Hs. destruct (match_import _ s) as [r|] eqn:E; [|done].
  apply match_import_Some in E as (ws & _ & _ & ->).
  rewrite !nosemi_app, !andb_true_iff in Hs.
  destruct Hs as (_ & _ & (_ & Hs) & _). discriminate Hs.
Qed.

Lemma re_sub_nosemi lit repl s :
  Seg.nosemi s = true -> re_sub (lit ++ [semi]) repl s = s.
Proof.
  induction s as [|c s IH]; intros Hs; rewrite re_sub_eq,
    match_import_nosemi by done; [done|].
  apply nosemi_cons in Hs as [_ Hs]. by rewrite IH.
Qed.

(** One substitution, segment by segment. *)
Lemma re_sub_seg lit r seg rest :
  Seg.nosemi lit = true -> Seg.nosemi seg = true ->
  re_sub (lit ++ [semi]) (T "import " ++ r ++ [semi]) (seg ++ semi :: rest) =
  Seg.fix_seg lit r seg ++
  semi :: re_sub (lit ++ [semi]) (T "import " ++ r ++ [semi]) rest.
Proof.
  intros Hl. induction seg as [|c seg IH]; intros Hs;
    rewrite re_sub_eq, match_import_seg by done.
  - simpl. done.
  - destruct (Seg.stmtb lit (c :: seg)) eqn:E.
    + cbn [Seg.fix_seg]. rewrite E. by rewrite <- !app_assoc.
    + cbn [Seg.fix_seg app]. rewrite E. cbn [app].
      apply nosemi_cons in Hs as [_ Hs]. by rewrite IH.
Qed.


(** *** Statements inside one segment *)

Lemma spaces_lit_spec lit t :
  Seg.spaces_lit lit t = true <->
  exists ws, ws <> [] /\ forallb is_space ws = true /\ t = ws ++ lit.
Proof.
  split.
  - induction t as [|c t IH]; simpl; [done|].
    rewrite andb_true_iff, orb_true_iff, text_eqb_eq.
    intros [Hc [H| ->]].
    + destruct (IH H) as (ws & _ & Hws & ->).
      exists (c :: ws). simpl. by rewrite Hc, Hws.
    + exists [c]. simpl. by rewrite Hc.
  - intros (ws & Hne & Hws & ->).
    induction ws as [|c ws IH]; [done|]. simpl in *.
    apply andb_true_iff in Hws as [-> Hws]. simpl.
    destruct ws as [|d ws].
    + apply orb_true_iff. right. by apply text_eqb_eq.
    + apply orb_true_iff. left. by apply IH.
Qed.

Lemma stmtb_spec lit seg :
  Seg.stmtb lit seg = true <->
  exists ws, ws <> [] /\ forallb is_space ws = true /\
             seg = T "import" ++ ws ++ lit.
Proof.
  unfold Seg.stmtb. split.
  - destruct (strip_prefix (T "import") seg) as [t|] eqn:E; [|done].
    apply strip_prefix_Some in E. intros H.
    apply spaces_lit_spec in H as (ws & ? & ? & ->). eauto.
  - intros (ws & ? & ? & ->). rewrite strip_prefix_app.
    apply spaces_lit_spec. eauto.
Qed.

Lemma seg_has_spec lit seg :
  Seg.seg_has lit seg = true <->
  exists p y, seg = p ++ y /\ Seg.stmtb lit y = true.
Proof.
  split.
  - induction seg as [|c seg IH]; cbn [Seg.seg_has];
      rewrite orb_true_iff; intros [H|H]; try done.
    + by exists [], (c :: seg).
    + destruct (IH H) as (p & y & -> & Hy). by exists (c :: p), y.
  - intros (p & y & -> & Hy). induction p as [|c p IH].
    + destruct y; cbn [Seg.seg_has app]; by rewrite Hy.
    + cbn [Seg.seg_has app]. rewrite IH. apply orb_true_r.
Qed.

Lemma forallb_rev (p : ascii -> bool) l : forallb p (rev l) = forallb p l.
Proof.
  induction l as [|a l IH]; [done|]. simpl.
  rewrite forallb_app, IH. simpl. rewrite andb_true_r. apply andb_comm.
Qed.

(** A text splits in one way only into a run of characters satisfying
    [p] and a rest that starts with a character that does not. *)
Lemma span_unique (p : ascii -> bool) x x' z z' :
  forallb p x = true -> forallb p x' = true ->
  (forall c t, z = c :: t -> p c = false) ->
  (forall c t, z' = c :: t -> p c = false) ->
  x ++ z = x' ++ z' -> x = x' /\ z = z'.
Proof.
  revert x'; induction x as [|a x IH]; intros [|a' x'] Hx Hx' Hz Hz' E;
    simpl in *.
  - done.
  - apply andb_true_iff in Hx' as [Ha _].
    rewrite (Hz _ _ E) in Ha. done.
  - apply andb_true_iff in Hx as [Ha _].
    rewrite (Hz' _ _ (eq_sym E)) in Ha. done.
  - injection E as -> E.
    apply andb_true_iff in Hx as [_ Hx], Hx' as [_ Hx'].
    destruct (IH _ Hx Hx' Hz Hz' E) as [-> ->]. done.
Qed.

(** The statement at the end of a segment is unique: its start, its
    white space and its name are determined by the segment. *)
Lemma decomp_unique u ws a u' ws' a' :
  ws <> [] -> forallb is_space ws = true -> Seg.nospace a = true ->
  ws' <> [] -> forallb is_space ws' = true -> Seg.nospace a' = true ->
  u ++ T "import" ++ ws ++ a = u' ++ T "import" ++ ws' ++ a' ->
  u = u' /\ ws = ws' /\ a = a'.
Proof.
  intros Hne Hws Ha Hne' Hws' Ha' E.
  apply (f_equal (@rev ascii)) in E.
  rewrite !rev_app_distr, <- !app_assoc in E.
  assert (Hhd : forall w v c t, w <> [] -> forallb is_space w = true ->
            rev w ++ v = c :: t -> negb (is_space c) = false).
  { intros w v c t Hw Hsp Hc.
    rewrite <- forallb_rev in Hsp.
    destruct (rev w) as [|d w'] eqn:Er.
    - apply (f_equal (@rev ascii)) in Er. rewrite rev_involutive in Er. done.
    - simpl in *. injection Hc as -> _.
      apply andb_true_iff in Hsp as [-> _]. done. }
  apply span_unique with (p := fun c => negb (is_space c)) in E as [E1 E2];
    [|by rewrite forallb_rev|by rewrite forallb_rev|by eauto|by eauto].
  apply span_unique with (p := is_space) in E2 as [E2 E3];
    [|by rewrite forallb_rev|by rewrite forallb_rev
     |by intros c t [= <- _]|by intros c t [= <- _]].
  apply app_inv_head in E3.
  apply (f_equal (@rev ascii)) in E1, E2, E3.
  rewrite !rev_involutive in E1, E2, E3. done.
Qed.

Lemma stmtb_nil lit : Seg.stmtb lit [] = false.
Proof. reflexivity. Qed.

Lemma fix_seg_none lit r seg :
  Seg.seg_has lit seg = false -> Seg.fix_seg lit r seg = seg.
Proof.
  induction seg as [|c seg IH]; cbn [Seg.seg_has Seg.fix_seg];
    rewrite orb_false_iff; intros [-> H]; [done|]. by rewrite IH.
Qed.

Lemma fix_seg_at lit r x y :
  Seg.stmtb lit y = true ->
  (forall p q, x = p ++ q -> q <> [] -> Seg.stmtb lit (q ++ y) = false) ->
  Seg.fix_seg lit r (x ++ y) = x ++ T "import " ++ r.
Proof.
  intros Hy. induction x as [|c x IH]; intros Hx.
  - destruct y; cbn [Seg.fix_seg app]; by rewrite Hy.
  - pose proof (Hx [] (c :: x) eq_refl ltac:(done)) as Hc.
    cbn [Seg.fix_seg app] in *. rewrite Hc.
    rewrite IH; [done|]. intros p q -> Hq. by apply (Hx (c :: p) q).
Qed.

(** On a segment that ends with a statement, a substitution is a test
    on the statement's name. *)
Lemma fix_seg_stmt lit r x ws a :
  ws <> [] -> forallb is_space ws = true ->
  Seg.nospace a = true -> Seg.nospace lit = true ->
  Seg.fix_seg lit r (x ++ T "import" ++ ws ++ a) =
  if text_eqb a lit then x ++ T "import " ++ r
  else x ++ T "import" ++ ws ++ a.
Proof.
  intros Hne Hws Ha Hl. destruct (text_eqb a lit) eqn:E.
  - apply text_eqb_eq in E as ->. apply fix_seg_at.
    + apply stmtb_spec. eauto.
    + intros p q -> Hq. destruct (Seg.stmtb lit _) eqn:Es; [|done].
      apply stmtb_spec in Es as (ws' & ? & ? & Es).
      change (q ++ T "import" ++ ws ++ lit = [] ++ T "import" ++ ws' ++ lit)
        in Es.
      apply decomp_unique in Es as [? _]; done.
  - apply fix_seg_none. destruct (Seg.seg_has lit _) eqn:Es; [|done].
    apply seg_has_spec in Es as (p & y & Ey & Hy).
    apply stmtb_spec in Hy as (ws' & ? & ? & ->).
    apply decomp_unique in Ey as (_ & _ & ->); try done.
    assert (text_eqb lit lit = true) by by apply text_eqb_eq. congruence.
Qed.


Lemma clean_spec t :
  Seg.clean t = true -> Seg.nospace t = true /\ Seg.nosemi t = true.
Proof.
  unfold Seg.clean, Seg.nospace, Seg.nosemi.
  induction t as [|c t IH]; simpl; [done|].
  rewrite !andb_true_iff. intros [[-> ->] H].
  destruct (IH H) as [-> ->]. done.
Qed.

Lemma nosemi_fix_seg lit r seg :
  Seg.nosemi r = true -> Seg.nosemi seg = true ->
  Seg.nosemi (Seg.fix_seg lit r seg) = true.
Proof.
  intros Hr. induction seg as [|c seg IH]; intros Hs; cbn [Seg.fix_seg].
  - by rewrite stmtb_nil.
  - destruct (Seg.stmtb lit (c :: seg)).
    + rewrite nosemi_app, Hr. done.
    + apply nosemi_cons in Hs as [Hc Hs]. apply nosemi_cons. auto.
Qed.

(** Texts are built from [;]-free segments. *)
Lemma semi_ind (P : text -> Prop) :
  (forall s, Seg.nosemi s = true -> P s) ->
  (forall seg rest, Seg.nosemi seg = true -> P rest ->
                    P (seg ++ semi :: rest)) ->
  forall s, P s.
Proof.
  intros H0 H1 s.
  enough (forall acc, Seg.nosemi acc = true -> P (acc ++ s)) as H
    by apply (H [] eq_refl).
  induction s as [|c s IH]; intros acc Hacc.
  - rewrite app_nil_r. by apply H0.
  - destruct (Ascii.eqb c semi) eqn:E.
    + apply Ascii.eqb_eq in E as ->. apply H1; [done|]. apply (IH [] eq_refl).
    + replace (acc ++ c :: s) with ((acc ++ [c]) ++ s)
        by by rewrite <- app_assoc.
      apply IH. rewrite nosemi_app, Hacc. unfold Seg.nosemi. simpl.
      by rewrite E.
Qed.

Lemma spaces_then_complete body ws post :
  ws <> [] -> forallb is_space ws = true ->
  spaces_then body (ws ++ body ++ post) <> None.
Proof.
  induction ws as [|c ws IH]; [done|]. intros _ Hws. simpl in *.
  apply andb_true_iff in Hws as [-> Hws].
  destruct ws as [|d ws].
  - simpl. destruct (spaces_then body (body ++ post)); [done|].
    by rewrite strip_prefix_app.
  - specialize (IH ltac:(done) Hws).
    destruct (spaces_then body ((d :: ws) ++ body ++ post)); done.
Qed.

Lemma occursb_false body s :
  Seg.occursb body s = false ->
  forall pre ws post, ws <> [] -> forallb is_space ws = true ->
    s <> pre ++ T "import" ++ ws ++ body ++ post.
Proof.
  intros H pre ws post Hne Hws ->. induction pre as [|c pre IH].
  - assert (match_import body (T "import" ++ ws ++ body ++ post) <> None).
    { unfold match_import. rewrite strip_prefix_app.
      by apply spaces_then_complete. }
    destruct (T "import" ++ ws ++ body ++ post) eqn:E;
      cbn [Seg.occursb app] in H; rewrite ?E in H;
      destruct (match_import body _); done.
  - cbn [Seg.occursb app] in H.
    destruct (match_import body _); [done|]. auto.
Qed.

Lemma occursb_nosemi lit s :
  Seg.nosemi s = true -> Seg.occursb (lit ++ [semi]) s = false.
Proof.
  induction s as [|c s IH]; intros Hs; cbn [Seg.occursb];
    rewrite match_import_nosemi by done; [done|].
  apply nosemi_cons in Hs as [_ Hs]. auto.
Qed.

Lemma occursb_seg lit seg rest :
  Seg.nosemi lit = true -> Seg.nosemi seg = true ->
  Seg.occursb (lit ++ [semi]) (seg ++ semi :: rest) =
  Seg.seg_has lit seg || Seg.occursb (lit ++ [semi]) rest.
Proof.
  intros Hl. induction seg as [|c seg IH]; intros Hs.
  - pose proof (match_import_seg lit [] rest Hl Hs) as E.
    cbn [app Seg.occursb Seg.seg_has] in *. rewrite E, stmtb_nil. done.
  - pose proof (match_import_seg lit (c :: seg) rest Hl Hs) as E.
    cbn [app Seg.occursb Seg.seg_has] in *. rewrite E.
    apply nosemi_cons in Hs as [_ Hs].
    destruct (Seg.stmtb lit (c :: seg)); [done|]. by rewrite IH.
Qed.

(** A template without a backslash is read as its own characters. *)
Lemma parse_template_from_literal repl :
  forallb (fun c => negb (Ascii.eqb c backslash)) repl = true ->
  parse_template_from Plain repl = Some (map Lit repl).
Proof.
  induction repl as [|c repl IH]; [done|]. cbn [forallb parse_template_from map].
  intros [Hc Hr]%andb_prop. apply negb_true_iff in Hc. rewrite Hc.
  by rewrite (IH Hr).
Qed.

Lemma parse_template_literal repl :
  expand_template repl = Some repl ->
  parse_template repl = Some (map Lit repl).
Proof.
  unfold expand_template, parse_template. intros H.
  apply parse_template_from_literal.
  by destruct (forallb _ repl).
Qed.

(** The escapes of a template, on examples. *)
Lemma parse_template_examples :
  parse_template (T "a\nb") = Some [Lit "a"; Lit newline; Lit "b"] /\
  parse_template (T "\\") = Some [Lit backslash] /\
  parse_template (T "\g<0>;") = Some [Group0; Lit semi] /\
  parse_template (T "\073") = Some [Lit semi] /\
  parse_template (T "\0738") = Some [Lit semi; Lit "8"] /\
  parse_template (T "\.") = Some [Lit backslash; Lit dot] /\
  parse_template (T "\q") = None /\
  parse_template (T "\1") = None /\
  parse_template (T "\g<name>") = None /\
  parse_template (T "\g<0") = None /\
  parse_template (T "a\") = None.
Proof. repeat split; vm_compute; reflexivity. Qed.

Lemma expand_literal repl m : expand (map Lit repl) m = repl.
Proof.
  unfold expand. induction repl as [|c repl IH]; [done|].
  cbn [map flat_map app]. by rewrite IH.
Qed.

End TextFacts.

(** ** A list of rules applied in order *)

Module RulesFacts.

Import Seg Rules TextFacts.

#[local] Arguments T : simpl never.
#[local] Arguments re_sub : simpl never.
#[local] Arguments semi : simpl never.

Lemma import_space : T "import " = T "import" ++ T " ".
Proof. reflexivity. Qed.

Lemma lookup_rule_key rs a :
  lookup_rule rs a = None <-> Forall (fun rl => a <> rl.1) rs.
Proof.
  induction rs as [|rl rs IH]; simpl.
  - split; [constructor|done].
  - destruct (text_eqb a rl.1) eqn:E.
    + apply text_eqb_eq in E. split; [done|]. by inversion 1.
    + rewrite IH. split.
      * intros H. constructor; [|done]. intros ->.
        assert (text_eqb rl.1 rl.1 = true) by by apply text_eqb_eq.
        congruence.
      * by inversion 1.
Qed.

Section Rules.

Variable rules : list (text * text).
Hypothesis Hok : rules_ok rules = true.
Hypothesis Hclosed : rules_closed rules = true.

Lemma rule_clean rl :
  In rl rules -> clean rl.1 = true /\ clean rl.2 = true.
Proof.
  intros Hin. unfold rules_ok in Hok.
  rewrite forallb_forall in Hok. by apply andb_true_iff, Hok.
Qed.

Lemma rule_closed rl : In rl rules -> lookup_rule rules rl.2 = None.
Proof.
  intros Hin. unfold rules_closed in Hclosed.
  rewrite forallb_forall in Hclosed. specialize (Hclosed _ Hin).
  apply negb_true_iff in Hclosed.
  apply lookup_rule_key, Forall_forall. intros rl' Hin' E.
  assert (existsb (fun rl' => text_eqb rl.2 rl'.1) rules = true); [|congruence].
  apply existsb_exists. exists rl'. split; [by apply list_elem_of_In|].
  by apply text_eqb_eq.
Qed.

(** A statement whose name no rule of [rs] has is left as it is. *)
Lemma fix_all_miss rs x ws a :
  (forall rl, In rl rs -> In rl rules) ->
  ws <> [] -> forallb is_space ws = true -> nospace a = true ->
  lookup_rule rs a = None ->
  fix_all rs (x ++ T "import" ++ ws ++ a) = x ++ T "import" ++ ws ++ a.
Proof.
  intros Hsub Hne Hws Ha. induction rs as [|rl rs IH]; [done|].
  cbn [lookup_rule]. destruct (text_eqb a rl.1) eqn:E; [done|]. intros Hl.
  unfold fix_all. cbn [fold_left].
  destruct (rule_clean rl) as [[Hc _]%clean_spec _]; [apply Hsub; by left|].
  rewrite fix_seg_stmt, E by done.
  apply IH; [|done]. intros ? ?. apply Hsub. by right.
Qed.

(** A statement is rewritten by the first rule that has its name. *)
Lemma fix_all_stmt_gen rs x ws a :
  (forall rl, In rl rs -> In rl rules) ->
  (forall rl, In rl rs -> lookup_rule rs rl.2 = None) ->
  ws <> [] -> forallb is_space ws = true -> nospace a = true ->
  fix_all rs (x ++ T "import" ++ ws ++ a) =
  match lookup_rule rs a with
  | Some r => x ++ T "import " ++ r
  | None => x ++ T "import" ++ ws ++ a
  end.
Proof.
  intros Hsub Hcl Hne Hws Ha. induction rs as [|rl rs IH]; [done|].
  assert (Hsub' : forall rl', In rl' rs -> In rl' rules)
    by (intros ? ?; apply Hsub; by right).
  assert (Hcl' : forall rl', In rl' rs -> lookup_rule rs rl'.2 = None).
  { intros rl' Hin. specialize (Hcl rl' (or_intror Hin)).
    cbn [lookup_rule] in Hcl. by destruct (text_eqb _ _). }
  destruct (rule_clean rl) as [[Hc _]%clean_spec [Hr _]%clean_spec];
    [apply Hsub; by left|].
  unfold fix_all. cbn [fold_left lookup_rule].
  rewrite fix_seg_stmt by done.
  destruct (text_eqb a rl.1) eqn:E.
  - rewrite import_space, <- app_assoc.
    apply fix_all_miss; try done.
    specialize (Hcl rl (or_introl eq_refl)).
    cbn [lookup_rule] in Hcl. by destruct (text_eqb _ _).
  - by apply IH.
Qed.

Lemma fix_all_stmt x ws a :
  ws <> [] -> forallb is_space ws = true -> nospace a = true ->
  fix_all rules (x ++ T "import" ++ ws ++ a) =
  match lookup_rule rules a with
  | Some r => x ++ T "import " ++ r
  | None => x ++ T "import" ++ ws ++ a
  end.
Proof. apply fix_all_stmt_gen; [done|apply rule_closed]. Qed.

(** A segment in which no rule has a statement is left as it is. *)
Lemma fix_all_none rs seg :
  Forall (fun rl => seg_has rl.1 seg = false) rs -> fix_all rs seg = seg.
Proof.
  induction 1 as [|rl rs H _ IH]; [done|].
  unfold fix_all. cbn [fold_left]. by rewrite fix_seg_none.
Qed.

(** Every segment is of one of the two kinds. *)
Lemma seg_cases seg :
  Forall (fun rl => seg_has rl.1 seg = false) rules \/
  exists x ws a, ws <> [] /\ forallb is_space ws = true /\
                 nospace a = true /\ seg = x ++ T "import" ++ ws ++ a.
Proof.
  destruct (existsb (fun rl => seg_has rl.1 seg) rules) eqn:E.
  - right. apply existsb_exists in E as (rl & Hin & Hs).
    apply seg_has_spec in Hs as (x & y & -> & Hy).
    apply stmtb_spec in Hy as (ws & ? & ? & ->).
    destruct (rule_clean rl Hin) as [[? _]%clean_spec _].
    exists x, ws, rl.1. done.
  - left. apply Forall_forall. intros rl Hin.
    destruct (seg_has rl.1 seg) eqn:Hs; [|done].
    assert (existsb (fun rl => seg_has rl.1 seg) rules = true); [|congruence].
    apply existsb_exists. exists rl. split; [|done].
    by apply list_elem_of_In.
Qed.

Lemma apply_all_nosemi rs s : nosemi s = true -> apply_all rs s = s.
Proof.
  intros Hs. induction rs as [|rl rs IH]; [done|].
  unfold apply_all, apply_rule in *. cbn [fold_left].
  by rewrite re_sub_nosemi.
Qed.

(** The whole rewriter, segment by segment. *)
Lemma apply_all_seg_gen rs seg rest :
  (forall rl, In rl rs -> In rl rules) -> nosemi seg = true ->
  apply_all rs (seg ++ semi :: rest) =
  fix_all rs seg ++ semi :: apply_all rs rest.
Proof.
  revert seg rest. induction rs as [|rl rs IH]; intros seg rest Hsub Hs;
    [done|].
  destruct (rule_clean rl) as [[_ Hc]%clean_spec [_ Hr]%clean_spec];
    [apply Hsub; by left|].
  unfold apply_all, fix_all, apply_rule in *. cbn [fold_left].
  rewrite re_sub_seg by done. apply IH.
  - intros ? ?. apply Hsub. by right.
  - by apply nosemi_fix_seg.
Qed.

Lemma apply_all_seg seg rest :
  nosemi seg = true ->
  apply_all rules (seg ++ semi :: rest) =
  fix_all rules seg ++ semi :: apply_all rules rest.
Proof. by apply apply_all_seg_gen. Qed.

Lemma nosemi_fix_all rs seg :
  (forall rl, In rl rs -> In rl rules) -> nosemi seg = true ->
  nosemi (fix_all rs seg) = true.
Proof.
  revert seg. induction rs as [|rl rs IH]; intros seg Hsub Hs; [done|].
  destruct (rule_clean rl) as [_ [_ Hr]%clean_spec]; [apply Hsub; by left|].
  unfold fix_all in *. cbn [fold_left]. apply IH.
  - intros ? ?. apply Hsub. by right.
  - by apply nosemi_fix_seg.
Qed.

Lemma fix_all_idem seg : fix_all rules (fix_all rules seg) = fix_all rules seg.
Proof.
  destruct (seg_cases seg) as [H|(x & ws & a & Hne & Hws & Ha & ->)].
  - by rewrite !(fix_all_none _ _ H).
  - rewrite fix_all_stmt by done.
    destruct (lookup_rule rules a) as [r|] eqn:E.
    + assert (exists rl, In rl rules /\ rl.2 = r) as (rl & Hin & <-).
      { clear -E. induction rules as [|rl rs IH]; [done|].
        cbn [lookup_rule] in E. destruct (text_eqb a rl.1).
        - injection E as <-. exists rl. split; [by left|done].
        - destruct (IH E) as (rl' & ? & ?). exists rl'. split; [by right|done]. }
      destruct (rule_clean rl Hin) as [_ [Hr _]%clean_spec].
      rewrite import_space, <- app_assoc.
      rewrite fix_all_stmt, rule_closed by done. done.
    + by rewrite fix_all_stmt, E.
Qed.

(** Idempotence of the rule list. *)
Lemma apply_all_idem s :
  apply_all rules (apply_all rules s) = apply_all rules s.
Proof.
  induction s as [s Hs|seg rest Hs IH] using semi_ind.
  - by rewrite !(apply_all_nosemi _ s Hs).
  - rewrite apply_all_seg by done.
    rewrite apply_all_seg by by apply nosemi_fix_all.
    by rewrite fix_all_idem, IH.
Qed.

Lemma lookup_rule_Some rs a r :
  lookup_rule rs a = Some r -> exists rl, In rl rs /\ rl.2 = r.
Proof.
  induction rs as [|rl rs IH]; [done|]. cbn [lookup_rule].
  destruct (text_eqb a rl.1).
  - intros [= <-]. exists rl. split; [by left|done].
  - intros E. destruct (IH E) as (rl' & ? & ?).
    exists rl'. split; [by right|done].
Qed.

Lemma seg_has_fix_all rl seg :
  In rl rules -> seg_has rl.1 (fix_all rules seg) = false.
Proof.
  intros Hin.
  assert (Hkey : lookup_rule rules rl.1 <> None).
  { rewrite lookup_rule_key, Forall_forall. intros H.
    by apply (H rl); [apply list_elem_of_In|]. }
  destruct (rule_clean rl Hin) as [[Hl _]%clean_spec _].
  destruct (seg_cases seg) as [H|(x & ws & a & Hne & Hws & Ha & ->)].
  - rewrite fix_all_none by done.
    rewrite Forall_forall in H. apply H. by apply list_elem_of_In.
  - rewrite fix_all_stmt by done.
    destruct (seg_has rl.1 _) eqn:Es; [|done]. exfalso.
    apply seg_has_spec in Es as (p & y & Ey & Hy).
    apply stmtb_spec in Hy as (ws' & ? & ? & ->).
    destruct (lookup_rule rules a) as [r|] eqn:E.
    + destruct (lookup_rule_Some _ _ _ E) as (rl' & Hin' & <-).
      destruct (rule_clean rl' Hin') as [_ [Hr _]%clean_spec].
      rewrite import_space, <- app_assoc in Ey.
      apply decomp_unique in Ey as (_ & _ & Ey); try done.
      rewrite <- Ey in Hkey. by apply Hkey, rule_closed.
    + apply decomp_unique in Ey as (_ & _ & Ey); try done. congruence.
Qed.

(** No statement of a rule is left in the rewritten text. *)
Lemma occursb_apply_all rl s :
  In rl rules -> occursb (rl.1 ++ [semi]) (apply_all rules s) = false.
Proof.
  intros Hin. destruct (rule_clean rl Hin) as [[_ Hl]%clean_spec _].
  induction s as [s Hs|seg rest Hs IH] using semi_ind.
  - rewrite apply_all_nosemi by done. by apply occursb_nosemi.
  - rewrite apply_all_seg by done.
    rewrite occursb_seg by (by try apply nosemi_fix_all).
    by rewrite seg_has_fix_all, IH.
Qed.

(** Each statement is replaced by the first rule with its name, and the
    text around it is rewritten on its own. *)
Lemma apply_all_stmt pre ws a post r :
  ws <> [] -> forallb is_space ws = true ->
  lookup_rule rules a = Some r -> clean a = true ->
  apply_all rules (pre ++ T "import" ++ ws ++ (a ++ [semi]) ++ post) =
  apply_all rules pre ++ (T "import " ++ r ++ [semi]) ++ apply_all rules post.
Proof.
  intros Hne Hws Hr [Ha Has]%clean_spec.
  assert (Hw : nosemi ws = true).
  { clear -Hws. induction ws as [|c w IH]; [done|]. simpl in Hws.
    apply andb_true_iff in Hws as [Hc Hws]. apply nosemi_cons.
    split; [|by apply IH]. intros ->. by rewrite is_space_semi in Hc. }
  induction pre as [s Hs|seg rest Hs IH] using semi_ind.
  - rewrite (apply_all_nosemi _ s) by done.
    replace (s ++ T "import" ++ ws ++ (a ++ [semi]) ++ post)
      with ((s ++ T "import" ++ ws ++ a) ++ semi :: post)
      by by rewrite <- !app_assoc.
    rewrite apply_all_seg.
    + rewrite fix_all_stmt, Hr by done. by rewrite <- !app_assoc.
    + rewrite !nosemi_app, Hs, Hw, Has. done.
  - rewrite <- app_assoc. cbn [app].
    rewrite !apply_all_seg by done.
    rewrite IH. by rewrite <- (app_assoc (fix_all rules seg)).
Qed.

End Rules.

End RulesFacts.

(** ** The import rewriter on [IMPORT_MAPPINGS] *)

Module UpdateImportsFacts.

Import Seg Rules TextFacts RulesFacts.

#[local] Arguments T : simpl never.
#[local] Arguments re_sub : simpl never.

Lemma update_all_rules ms content :
  update_all ms content = apply_all (rules_of ms) content.
Proof.
  revert content. induction ms as [|m ms IH]; intros content; [done|].
  unfold update_all, apply_all in *. cbn [fold_left rules_of flat_map app].
  rewrite IH. f_equal.
  unfold update_one, apply_rule, exact_body, new_statement, wild_body,
    new_wildcard. cbn [fst snd].
  change (T ".*;") with (T ".*" ++ [semi]).
  change (T ";") with [semi].
  by rewrite !app_assoc.
Qed.

Lemma import_rules_ok : rules_ok (rules_of IMPORT_MAPPINGS) = true.
Proof. vm_compute. reflexivity. Qed.

Lemma import_rules_closed : rules_closed (rules_of IMPORT_MAPPINGS) = true.
Proof. vm_compute. reflexivity. Qed.

Lemma in_rules_exact m :
  In m IMPORT_MAPPINGS -> In (T m.1, T m.2) (rules_of IMPORT_MAPPINGS).
Proof.
  intros Hin. unfold rules_of. apply in_flat_map. exists m.
  split; [done|by left].
Qed.

Lemma in_rules_wild m :
  In m IMPORT_MAPPINGS ->
  In (rsplit_dot (T m.1) ++ T ".*", rsplit_dot (T m.2) ++ T ".*")
     (rules_of IMPORT_MAPPINGS).
Proof.
  intros Hin. unfold rules_of. apply in_flat_map. exists m.
  split; [done|right; by left].
Qed.

(** The keys of the table are distinct: the statement of an old name is
    rewritten by its own entry. *)
Lemma lookup_exact m :
  In m IMPORT_MAPPINGS ->
  lookup_rule (rules_of IMPORT_MAPPINGS) (T m.1) = Some (T m.2).
Proof.
  intros Hin.
  assert (H : forallb (fun m => bool_decide
            (lookup_rule (rules_of IMPORT_MAPPINGS) (T m.1) = Some (T m.2)))
            IMPORT_MAPPINGS = true) by (vm_compute; reflexivity).
  rewrite forallb_forall in H. specialize (H _ Hin).
  by apply bool_decide_eq_true in H.
Qed.

(** The wildcard statement of an old package is rewritten by the first
    entry of the table with that package. *)
Lemma lookup_wild m :
  In m IMPORT_MAPPINGS ->
  exists m1, first_same_package IMPORT_MAPPINGS m.1 = Some m1 /\
    lookup_rule (rules_of IMPORT_MAPPINGS) (rsplit_dot (T m.1) ++ T ".*") =
    Some (rsplit_dot (T m1.2) ++ T ".*").
Proof.
  intros Hin.
  assert (H : forallb (fun m =>
            match first_same_package IMPORT_MAPPINGS m.1 with
            | Some m1 => bool_decide
               (lookup_rule (rules_of IMPORT_MAPPINGS)
                  (rsplit_dot (T m.1) ++ T ".*") =
                Some (rsplit_dot (T m1.2) ++ T ".*"))
            | None => false
            end) IMPORT_MAPPINGS = true) by (vm_compute; reflexivity).
  rewrite forallb_forall in H. specialize (H _ Hin).
  destruct (first_same_package IMPORT_MAPPINGS m.1) as [m1|]; [|done].
  exists m1. split; [done|]. by apply bool_decide_eq_true in H.
Qed.

Lemma rewrite_text_rules content :
  rewrite_text content = apply_all (rules_of IMPORT_MAPPINGS) content.
Proof. apply update_all_rules. Qed.

Lemma clean_exact m : In m IMPORT_MAPPINGS -> clean (T m.1) = true.
Proof.
  intros Hin.
  by destruct (rule_clean _ import_rules_ok _ (in_rules_exact m Hin)).
Qed.

Lemma clean_wild m :
  In m IMPORT_MAPPINGS -> clean (rsplit_dot (T m.1) ++ T ".*") = true.
Proof.
  intros Hin.
  by destruct (rule_clean _ import_rules_ok _ (in_rules_wild m Hin)).
Qed.

Lemma rewrite_exact m pre ws post :
  In m IMPORT_MAPPINGS -> ws <> [] -> forallb is_space ws = true ->
  rewrite_text (pre ++ T "import" ++ ws ++ exact_body (T m.1) ++ post) =
  rewrite_text pre ++ new_statement (T m.2) ++ rewrite_text post.
Proof.
  intros Hin Hne Hws.
  rewrite (rewrite_text_rules pre), (rewrite_text_rules post),
    (rewrite_text_rules (pre ++ _)).
  exact (apply_all_stmt _ import_rules_ok import_rules_closed
           pre ws (T m.1) post (T m.2) Hne Hws
           (lookup_exact m Hin) (clean_exact m Hin)).
Qed.

Lemma rewrite_wild m pre ws post :
  In m IMPORT_MAPPINGS -> ws <> [] -> forallb is_space ws = true ->
  exists m1, first_same_package IMPORT_MAPPINGS m.1 = Some m1 /\
    rewrite_text (pre ++ T "import" ++ ws ++ wild_body (T m.1) ++ post) =
    rewrite_text pre ++ new_wildcard (T m1.2) ++ rewrite_text post.
Proof.
  intros Hin Hne Hws. destruct (lookup_wild m Hin) as (m1 & Hm1 & Hl).
  exists m1. split; [done|].
  rewrite (rewrite_text_rules pre), (rewrite_text_rules post),
    (rewrite_text_rules (pre ++ _)).
  pose proof (apply_all_stmt _ import_rules_ok import_rules_closed
           pre ws (rsplit_dot (T m.1) ++ T ".*") post
           (rsplit_dot (T m1.2) ++ T ".*") Hne Hws Hl (clean_wild m Hin))
    as H.
  unfold wild_body, new_wildcard.
  change (T ".*;") with (T ".*" ++ [semi]).
  rewrite (app_assoc (rsplit_dot (T m.1))), (app_assoc (rsplit_dot (T m1.2))).
  exact H.
Qed.

Lemma rewrite_no_exact m content pre ws post :
  In m IMPORT_MAPPINGS -> ws <> [] -> forallb is_space ws = true ->
  rewrite_text content <> pre ++ T "import" ++ ws ++ exact_body (T m.1) ++ post.
Proof.
  intros Hin. rewrite (rewrite_text_rules content).
  apply (occursb_false (T m.1 ++ [semi])).
  exact (occursb_apply_all _ import_rules_ok import_rules_closed
           _ content (in_rules_exact m Hin)).
Qed.

Lemma rewrite_no_wild m content pre ws post :
  In m IMPORT_MAPPINGS -> ws <> [] -> forallb is_space ws = true ->
  rewrite_text content <> pre ++ T "import" ++ ws ++ wild_body (T m.1) ++ post.
Proof.
  intros Hin. rewrite (rewrite_text_rules content).
  unfold wild_body. change (T ".*;") with (T ".*" ++ [semi]).
  rewrite (app_assoc (rsplit_dot (T m.1))).
  apply (occursb_false ((rsplit_dot (T m.1) ++ T ".*") ++ [semi])).
  exact (occursb_apply_all _ import_rules_ok import_rules_closed
           _ content (in_rules_wild m Hin)).
Qed.

Lemma rewrite_text_idempotent content :
  rewrite_text (rewrite_text content) = rewrite_text content.
Proof.
  rewrite (rewrite_text_rules (rewrite_text content)),
    !(rewrite_text_rules content).
  exact (apply_all_idem _ import_rules_ok import_rules_closed content).
Qed.

(** The replacements of the table hold no backslash: [re.sub] uses them
    as they are. *)
Lemma import_templates_literal m :
  In m IMPORT_MAPPINGS ->
  expand_template (new_statement (T m.2)) = Some (new_statement (T m.2)) /\
  expand_template (new_wildcard (T m.2)) = Some (new_wildcard (T m.2)).
Proof.
  intros Hin.
  assert (H : forallb (fun m =>
            bool_decide (expand_template (new_statement (T m.2)) =
                         Some (new_statement (T m.2))) &&
            bool_decide (expand_template (new_wildcard (T m.2)) =
                         Some (new_wildcard (T m.2))))
            IMPORT_MAPPINGS = true) by (vm_compute; reflexivity).
  rewrite forallb_forall in H. specialize (H _ Hin).
  apply andb_true_iff in H as [H1 H2].
  by apply bool_decide_eq_true in H1, H2.
Qed.

(** *** Characters of the rewritten text *)

Lemma strip_prefix_forallb (P : ascii -> bool) p s r :
  strip_prefix p s = Some r -> forallb P s = true -> forallb P r = true.
Proof.
  intros ->%strip_prefix_Some. rewrite forallb_app.
  by intros [_ ?]%andb_true_iff.
Qed.

Lemma match_import_forallb (P : ascii -> bool) body s r :
  match_import body s = Some r -> forallb P s = true -> forallb P r = true.
Proof.
  intros (ws & _ & _ & ->)%match_import_Some.
  rewrite !forallb_app, !andb_true_iff. tauto.
Qed.

Lemma re_sub_fuel_forallb (P : ascii -> bool) n body repl s :
  forallb P repl = true -> forallb P s = true ->
  forallb P (re_sub_fuel n body repl s) = true.
Proof.
  intros Hr. revert s. induction n as [|n IH]; intros s Hs; [done|].
  cbn [re_sub_fuel]. destruct (match_import body s) as [rest|] eqn:E.
  - rewrite forallb_app, Hr. apply IH. by eapply match_import_forallb.
  - destruct s as [|c t]; [done|]. simpl in *.
    apply andb_true_iff in Hs as [-> Hs]. by apply IH.
Qed.

Lemma update_all_forallb (P : ascii -> bool) ms content :
  forallb (fun m => forallb P (new_statement (T m.2)) &&
                    forallb P (new_wildcard (T m.2))) ms = true ->
  forallb P content = true -> forallb P (update_all ms content) = true.
Proof.
  revert content. induction ms as [|m ms IH]; intros content; [done|].
  cbn [forallb]. intros [[H1 H2]%andb_true_iff Hms]%andb_true_iff Hc.
  unfold update_all in *. cbn [fold_left]. apply IH; [done|].
  unfold update_one, re_sub. cbv zeta.
  apply re_sub_fuel_forallb; [done|]. by apply re_sub_fuel_forallb.
Qed.

End UpdateImportsFacts.

(** ** The file system operations *)

Module FSFacts.

Import FS.

Lemma mkdir_from_lookup fs pre rest fs' p :
  mkdir_from fs pre rest = Some fs' ->
  fs' !! p = fs !! p \/
  (fs !! p = None /\ fs' !! p = Some Dir /\
   exists c r, rest = c :: r /\ (pre ++ [c]) `prefix_of` p).
Proof.
  revert fs pre p. induction rest as [|c rest IH]; intros fs pre p; simpl.
  - intros [= <-]. by left.
  - destruct (fs !! (pre ++ [c])) as [[|]|] eqn:E; [done| |].
    + intros H. destruct (IH _ _ p H) as [Hp|(Hn & Hd & c' & r' & -> & Hpre)];
        [by left|right].
      split; [done|]. split; [done|]. exists c, (c' :: r'). split; [done|].
      destruct Hpre as [k ->]. exists ([c'] ++ k). by rewrite <- !app_assoc.
    + intros H. destruct (decide (p = pre ++ [c])) as [->|Hne].
      * right. split; [done|]. split; [|by exists c, rest].
        destruct (IH _ _ (pre ++ [c]) H)
          as [Hp|(Hn & _)]; rewrite lookup_insert_eq in *; done.
      * destruct (IH _ _ p H) as [Hp|(Hn & Hd & c' & r' & -> & Hpre)];
          rewrite lookup_insert_ne in * by done; [by left|right].
        split; [done|]. split; [done|]. exists c, (c' :: r'). split; [done|].
        destruct Hpre as [k ->]. exists ([c'] ++ k). by rewrite <- !app_assoc.
Qed.

(** Directory creation removes and overwrites nothing. *)
Lemma mkdir_from_mono fs pre rest fs' p n :
  mkdir_from fs pre rest = Some fs' -> fs !! p = Some n -> fs' !! p = Some n.
Proof.
  intros H Hp. destruct (mkdir_from_lookup _ _ _ _ p H) as [->|(Hn & _)];
    congruence.
Qed.

(** After it, the directory is there. *)
Lemma mkdir_from_dir fs pre rest fs' :
  mkdir_from fs pre rest = Some fs' -> rest <> [] ->
  fs' !! (pre ++ rest) = Some Dir.
Proof.
  revert fs pre. induction rest as [|c rest IH]; intros fs pre H Hne; [done|].
  destruct rest as [|c' rest].
  - simpl in H. destruct (fs !! (pre ++ [c])) as [[|]|] eqn:E; [done| |].
    + by injection H as <-.
    + injection H as <-. by rewrite lookup_insert_eq.
  - replace (pre ++ c :: c' :: rest) with ((pre ++ [c]) ++ c' :: rest)
      by by rewrite <- app_assoc.
    cbn [mkdir_from] in H.
    destruct (fs !! (pre ++ [c])) as [[|]|]; [done| |]; by eapply IH.
Qed.

Lemma mkdir_parents_is_dir st q st' :
  mkdir_parents st q = Some st' -> is_dir (files st') q = true.
Proof.
  unfold mkdir_parents, is_dir, node_at.
  destruct (mkdir_from (files st) [] q) as [fs|] eqn:E; [|done].
  intros [= <-]. destruct q as [|c q]; [done|]. simpl.
  pose proof (mkdir_from_dir _ [] (c :: q) _ E ltac:(done)) as Hd.
  simpl in Hd. by rewrite Hd.
Qed.

Lemma node_at_mkdir st q st' p n :
  mkdir_parents st q = Some st' ->
  node_at (files st) p = Some n -> node_at (files st') p = Some n.
Proof.
  unfold mkdir_parents.
  destruct (mkdir_from (files st) [] q) as [fs|] eqn:E; [|done].
  intros [= <-]. destruct p; [done|]. simpl. by eapply mkdir_from_mono.
Qed.

End FSFacts.

(** ** The relocator: what it leaves alone *)

Module MigrateFacts.

Import FS FSFacts Migrate.

Lemma agree_outside_refl st : agree_outside st st.
Proof. by intros p _. Qed.

Lemma agree_outside_trans st1 st2 st3 :
  agree_outside st1 st2 -> agree_outside st2 st3 -> agree_outside st1 st3.
Proof. intros H1 H2 p Hp. by rewrite H2, H1. Qed.

Lemma outside_app d x : d <> [] -> outside (d ++ x) = outside d.
Proof. by destruct d. Qed.

Lemma outside_parent d : outside (parent d) = false -> outside d = false.
Proof.
  destruct d as [|c [|c' d]]; [done..|]. done.
Qed.

Lemma outside_nonempty d : outside d = false -> d <> [].
Proof. by destruct d. Qed.

Lemma mkdir_parents_agree st q st' :
  mkdir_parents st q = Some st' -> outside q = false -> agree_outside st st'.
Proof.
  unfold mkdir_parents.
  destruct (mkdir_from (files st) [] q) as [fs|] eqn:E; [|done].
  intros [= <-] Hq p Hp. simpl.
  destruct (mkdir_from_lookup _ _ _ _ p E)
    as [->|(_ & _ & c & r & -> & [k ->])]; [done|].
  simpl in *. congruence.
Qed.

Lemma copy2_files st src dst st' :
  copy2 st src dst = Some st' ->
  exists c md, node_at (files st) src = Some (File c md) /\
    files st' = <[copy_target (files st) src dst := File c md]> (files st).
Proof.
  unfold copy2. destruct (node_at (files st) src) as [[c md|]|]; [|done..].
  repeat case_match; try done. intros [= <-]. by exists c, md.
Qed.

Lemma outside_copy_target fs src dst :
  outside dst = false -> outside (copy_target fs src dst) = false.
Proof.
  intros H. unfold copy_target. destruct (is_dir fs dst); [|done].
  rewrite outside_app; [done|by apply outside_nonempty].
Qed.

Lemma copy2_agree st src dst st' :
  copy2 st src dst = Some st' -> outside dst = false -> agree_outside st st'.
Proof.
  intros (c & md & _ & Hf)%copy2_files Hd p Hp. rewrite Hf.
  apply lookup_insert_ne. intros <-.
  rewrite outside_copy_target in Hp; done.
Qed.

Lemma move_file_agree st src dest r st' log :
  move_file st src dest = (r, st', log) ->
  outside (parent dest) = false -> agree_outside st st'.
Proof.
  unfold move_file. intros H Hd.
  destruct (negb (exists_ st src)).
  { injection H as _ <- _. apply agree_outside_refl. }
  destruct (mkdir_parents st (parent dest)) as [st1|] eqn:E1.
  2:{ injection H as _ <- _. apply agree_outside_refl. }
  pose proof (mkdir_parents_agree _ _ _ E1 Hd) as H1.
  destruct (copy2 st1 src dest) as [st2|] eqn:E2; injection H as _ <- _;
    [|done].
  eapply agree_outside_trans; [done|].
  eapply copy2_agree; [done|]. by apply outside_parent.
Qed.

Lemma move_all_agree pairs st moved failed ok st' m f log :
  Forall (fun pr => outside (parent pr.2) = false) pairs ->
  move_all pairs st moved failed = (ok, st', m, f, log) ->
  agree_outside st st'.
Proof.
  intros Hall. revert st moved failed ok st' m f log.
  induction Hall as [|[src dest] pairs Hd _ IH];
    intros st moved failed ok st' m f log; cbn [move_all].
  - intros [= _ <- _ _ _]. apply agree_outside_refl.
  - destruct (move_file st src dest) as [[r st1] log1] eqn:E.
    pose proof (move_file_agree _ _ _ _ _ _ E Hd) as H1.
    destruct r as [[|]|].
    + destruct (move_all pairs st1 (S moved) failed)
        as [[[[ok2 st2] m2] f2] log2] eqn:E2.
      intros [= _ <- _ _ _]. eapply agree_outside_trans; [done|by eapply IH].
    + destruct (move_all pairs st1 moved (S failed))
        as [[[[ok2 st2] m2] f2] log2] eqn:E2.
      intros [= _ <- _ _ _]. eapply agree_outside_trans; [done|by eapply IH].
    + by intros [= _ <- _ _ _].
Qed.

(** [update_package_declaration] touches the file it is given only. *)
Lemma update_package_declaration_other st p r st' log q :
  update_package_declaration st p = (r, st', log) -> q <> p ->
  files st' !! q = files st !! q.
Proof.
  unfold update_package_declaration, write_text. intros H Hq.
  repeat case_match; simplify_eq; try done; simpl;
    by rewrite lookup_insert_ne.
Qed.

Lemma update_packages_agree ps st n st' n' log :
  Forall (fun p => outside p = false) ps ->
  update_packages ps st n = (st', n', log) -> agree_outside st st'.
Proof.
  intros Hall. revert st n st' n' log.
  induction Hall as [|p ps Hp _ IH]; intros st n st' n' log;
    cbn [update_packages].
  - intros [= <- _ _]. apply agree_outside_refl.
  - destruct (update_package_declaration st p) as [[r st1] log1] eqn:E.
    destruct (update_packages ps st1 _) as [[st2 n2] log2] eqn:E2.
    intros [= <- _ _]. eapply agree_outside_trans; [|by eapply IH].
    intros q Hq. eapply update_package_declaration_other; [done|].
    intros ->. congruence.
Qed.

(** The glob of the second phase selects inside the two subtrees only. *)
Lemma glob_under_inside fs top p :
  negb (outside [top]) = true ->
  In p (glob_under fs top) -> outside p = false.
Proof.
  intros Htop [_ Hp]%filter_In. unfold under_java in Hp.
  destruct p as [|t [|c rest]]; [done..|].
  apply andb_true_iff in Hp as [->%String.eqb_eq _].
  by apply negb_true_iff in Htop.
Qed.

Lemma java_files_inside st p : In p (java_files st) -> outside p = false.
Proof.
  unfold java_files. rewrite in_app_iff.
  intros [H|H].
  - exact (glob_under_inside _ "modules" _ eq_refl H).
  - exact (glob_under_inside _ "common" _ eq_refl H).
Qed.

Lemma rewrite_phase_agree st st' log :
  rewrite_phase st = (st', log) -> agree_outside st st'.
Proof.
  unfold rewrite_phase.
  destruct (update_packages (java_files st) st 0) as [[st1 n] log1] eqn:E.
  intros [= <- _]. eapply update_packages_agree; [|done].
  apply Forall_forall. intros p Hp. apply list_elem_of_In in Hp.
  by eapply java_files_inside.
Qed.

Lemma main_on_agree pairs st ok st' log :
  Forall (fun pr => outside (parent pr.2) = false) pairs ->
  main_on pairs st = (ok, st', log) -> agree_outside st st'.
Proof.
  intros Hall. unfold main_on.
  destruct (move_all pairs st 0 0) as [[[[ok1 st1] m] f] log1] eqn:E.
  pose proof (move_all_agree _ _ _ _ _ _ _ _ _ Hall E) as H1.
  destruct ok1; [|by intros [= _ <- _]].
  destruct (rewrite_phase st1) as [st2 log2] eqn:E2.
  intros [= _ <- _]. eapply agree_outside_trans; [done|].
  by eapply rewrite_phase_agree.
Qed.

(** The table: sources outside the two subtrees, destinations inside,
    and no pair with a source equal to its destination. *)
Lemma migrations_dests :
  Forall (fun pr => outside (parent pr.2) = false) MIGRATIONS.
Proof.
  apply Forall_forall. intros pr Hin. apply list_elem_of_In in Hin.
  assert (H : forallb (fun pr => negb (outside (parent pr.2))) MIGRATIONS
              = true) by (vm_compute; reflexivity).
  rewrite forallb_forall in H. by apply negb_true_iff, H.
Qed.

Lemma migrations_sources src dest :
  In (src, dest) MIGRATIONS -> outside src = true.
Proof.
  intros Hin.
  assert (H : forallb (fun pr => outside pr.1) MIGRATIONS = true)
    by (vm_compute; reflexivity).
  rewrite forallb_forall in H. apply (H _ Hin).
Qed.

End MigrateFacts.

(** ** The substitution of the package declaration *)

Module PackageFacts.

Import TextFacts FS Migrate.

#[local] Arguments T : simpl never.
#[local] Arguments Ascii.eqb : simpl never.
#[local] Arguments is_space : simpl never.

Lemma upto_semi_shorter s r : upto_semi s = Some r -> length r < length s.
Proof.
  revert r; induction s as [|c s IH]; intros r; simpl; [done|].
  destruct (Ascii.eqb c semi).
  - intros [= <-]. lia.
  - intros H. specialize (IH _ H). lia.
Qed.

Lemma match_package_shorter s r :
  match_package s = Some r -> length r < length s.
Proof.
  unfold match_package, not_semi_plus.
  destruct (strip_prefix (T "package") s) as [t|] eqn:E; [|done].
  apply strip_prefix_Some in E as ->.
  destruct (spaces_then _ t) as [u|] eqn:E; [|done].
  apply spaces_then_shorter in E.
  destruct u as [|c u]; [done|]. destruct (Ascii.eqb c semi); [done|].
  intros H%upto_semi_shorter. rewrite length_app. simpl in *. lia.
Qed.

Lemma sub_package_fuel_enough repl n m bol s :
  length s < n -> length s < m ->
  sub_package_fuel n repl bol s = sub_package_fuel m repl bol s.
Proof.
  revert m bol s; induction n as [|n IH]; intros m bol s Hn Hm; [lia|].
  destruct m as [|m]; [lia|]. cbn [sub_package_fuel].
  destruct (if bol then match_package s else None) as [rest|] eqn:E.
  - assert (length rest < length s).
    { destruct bol; [by apply match_package_shorter|done]. }
    f_equal. apply IH; lia.
  - destruct s as [|c t]; [done|]. simpl in *. f_equal. apply IH; lia.
Qed.

(** The scan, as an equation. *)
Lemma sub_package_from_eq repl bol s :
  sub_package_from repl bol s =
  match (if bol then match_package s else None) with
  | Some rest => repl ++ sub_package_from repl false rest
  | None => match s with
            | [] => []
            | c :: t => c :: sub_package_from repl (Ascii.eqb c newline) t
            end
  end.
Proof.
  unfold sub_package_from at 1. cbn [sub_package_fuel].
  destruct (if bol then match_package s else None) as [rest|] eqn:E.
  - assert (length rest < length s).
    { destruct bol; [by apply match_package_shorter|done]. }
    f_equal. apply sub_package_fuel_enough; lia.
  - destruct s as [|c t]; [done|]. f_equal.
Qed.

(** Up to the first match at the beginning of a line the text is kept. *)
(** With a template of literal characters the substitution is the
    literal one. *)
Lemma sub_template_fuel_literal n repl bol s :
  sub_template_fuel n (map Lit repl) bol s = sub_package_fuel n repl bol s.
Proof.
  revert bol s. induction n as [|n IH]; intros bol s; [done|].
  cbn [sub_template_fuel sub_package_fuel].
  destruct (if bol then match_package s else None) as [rest|].
  - by rewrite expand_literal, IH.
  - destruct s as [|c t]; [done|]. by rewrite IH.
Qed.

Lemma sub_template_literal repl s :
  sub_template (map Lit repl) s = sub_package repl s.
Proof. apply sub_template_fuel_literal. Qed.

Lemma sub_package_from_app repl bol pre rest :
  no_decl_in bol pre rest = true ->
  sub_package_from repl bol (pre ++ rest) =
  pre ++ sub_package_from repl (bol_after bol pre) rest.
Proof.
  revert bol. induction pre as [|c pre IH]; intros bol; [done|].
  cbn [no_decl_in bol_after]. rewrite sub_package_from_eq.
  destruct (if bol then match_package ((c :: pre) ++ rest) else None);
    [done|].
  intros H. cbn [app]. by rewrite IH.
Qed.

Lemma sub_package_from_nil repl bol : sub_package_from repl bol [] = [].
Proof. by destruct bol. Qed.

(** A text without a match is left as it is. *)
Lemma sub_package_free repl s :
  no_decl_in true s [] = true -> sub_package repl s = s.
Proof.
  intros H. unfold sub_package.
  rewrite <- (app_nil_r s) at 1.
  by rewrite sub_package_from_app, sub_package_from_nil, app_nil_r.
Qed.

Lemma spaces_then_exact body ws post b body' :
  body = b :: body' -> is_space b = false ->
  ws <> [] -> forallb is_space ws = true ->
  spaces_then body (ws ++ body ++ post) = Some post.
Proof.
  intros -> Hb. induction ws as [|c ws IH]; [done|]. intros _ Hws.
  set (body := b :: body') in *.
  simpl in Hws. apply andb_true_iff in Hws as [Hc Hws].
  cbn [app spaces_then]. rewrite Hc.
  destruct ws as [|d ws].
  - unfold body at 2. cbn [app spaces_then]. rewrite Hb.
    apply (strip_prefix_app body).
  - by rewrite (IH ltac:(done) Hws).
Qed.

Lemma upto_semi_body body post :
  Seg.nosemi body = true -> upto_semi (body ++ semi :: post) = Some post.
Proof.
  induction body as [|c body IH]; simpl.
  - by rewrite ?Ascii.eqb_refl.
  - intros [Hc Hb]%nosemi_cons. apply Ascii.eqb_neq in Hc. by rewrite Hc, IH.
Qed.

(** What the pattern matches: [package], white space, the prefix
    [com.demo.auth.], a non-empty text without [;], and [;]. *)
Lemma match_package_decl ws body post :
  ws <> [] -> forallb is_space ws = true ->
  body <> [] -> Seg.nosemi body = true ->
  match_package
    (T "package" ++ ws ++ T "com.demo.auth." ++ body ++ semi :: post) =
  Some post.
Proof.
  intros Hne Hws Hb Hs. unfold match_package.
  rewrite strip_prefix_app.
  rewrite (spaces_then_exact _ ws _ "c"%char (T "om.demo.auth."))
    by done.
  destruct body as [|c body]; [done|]. cbn [app not_semi_plus].
  apply nosemi_cons in Hs as [Hc Hs]. apply Ascii.eqb_neq in Hc.
  rewrite Hc. by apply upto_semi_body.
Qed.

(** The first declaration of a text is replaced, and the scan goes on
    after it. *)
Lemma sub_package_decl repl pre ws body post :
  let decl := T "package" ++ ws ++ T "com.demo.auth." ++ body ++ semi :: post in
  no_decl_in true pre decl = true -> bol_after true pre = true ->
  ws <> [] -> forallb is_space ws = true ->
  body <> [] -> Seg.nosemi body = true ->
  sub_package repl (pre ++ decl) =
  pre ++ repl ++ sub_package_from repl false post.
Proof.
  intros decl Hpre Hbol Hne Hws Hb Hs. unfold sub_package.
  rewrite sub_package_from_app by done. rewrite Hbol.
  rewrite sub_package_from_eq. unfold decl.
  by rewrite match_package_decl.
Qed.

End PackageFacts.

(** ** The import rewriter: the properties of the specification *)

Module UpdateImportsSpec.

Import Seg Rules TextFacts RulesFacts UpdateImportsFacts.

(** C1, as stated, fails on the wildcard form: the entry of
    [com.demo.auth.entity.Role] is in the table, yet the wildcard import
    of its old package is rewritten to the package of the [User] entry,
    not to the new package of [Role]. *)
Lemma wildcard_not_rewritten_to_own_package :
  In ("com.demo.auth.entity.Role"%string,
      "com.demo.auth.modules.role.entity.Role"%string) IMPORT_MAPPINGS /\
  rewrite_text (T "import com.demo.auth.entity.*;") =
    T "import com.demo.auth.modules.user.entity.*;" /\
  rewrite_text (T "import com.demo.auth.entity.*;") <>
    new_wildcard (T "com.demo.auth.modules.role.entity.Role").
Proof.
  split; [right; left; reflexivity|].
  split; [vm_compute; reflexivity|].
  vm_compute. discriminate.
Qed.

(** C1 (amended): for every entry [(old, new)] of the import-mapping table
    and every text, the rewritten text holds no match of the statement
    [import old;] and none of the wildcard statement [import oldpkg.*;];
    each statement [import old;] of the input is replaced by
    [import new;]; and each wildcard statement [import oldpkg.*;] is
    replaced by the wildcard statement of the new package of the first
    entry, in table order, whose old package is [oldpkg]. The text before
    and after a statement is rewritten on its own. *)
Theorem rewrite_text_replaces_old_forms m content pre ws post :
  In m IMPORT_MAPPINGS -> ws <> [] -> forallb is_space ws = true ->
  rewrite_text content <>
    pre ++ T "import" ++ ws ++ exact_body (T m.1) ++ post /\
  rewrite_text content <>
    pre ++ T "import" ++ ws ++ wild_body (T m.1) ++ post /\
  rewrite_text (pre ++ T "import" ++ ws ++ exact_body (T m.1) ++ post) =
    rewrite_text pre ++ new_statement (T m.2) ++ rewrite_text post /\
  exists m1, first_same_package IMPORT_MAPPINGS m.1 = Some m1 /\
    rewrite_text (pre ++ T "import" ++ ws ++ wild_body (T m.1) ++ post) =
    rewrite_text pre ++ new_wildcard (T m1.2) ++ rewrite_text post.
Proof.
  intros Hin Hne Hws.
  split; [by apply rewrite_no_exact|].
  split; [by apply rewrite_no_wild|].
  split; [by apply rewrite_exact|by apply rewrite_wild].
Qed.

Lemma rewrite_text_replaces_old_forms_witness :
  let m := ("com.demo.auth.entity.Role"%string,
            "com.demo.auth.modules.role.entity.Role"%string) in
  let content := T "import  com.demo.auth.entity.Role;" in
  rewrite_text content <>
    [] ++ T "import" ++ T " " ++ exact_body (T m.1) ++ [] /\
  rewrite_text content <>
    [] ++ T "import" ++ T " " ++ wild_body (T m.1) ++ [] /\
  rewrite_text ([] ++ T "import" ++ T " " ++ exact_body (T m.1) ++ []) =
    rewrite_text [] ++ new_statement (T m.2) ++ rewrite_text [] /\
  exists m1, first_same_package IMPORT_MAPPINGS m.1 = Some m1 /\
    rewrite_text ([] ++ T "import" ++ T " " ++ wild_body (T m.1) ++ []) =
    rewrite_text [] ++ new_wildcard (T m1.2) ++ rewrite_text [].
Proof.
  intros m content.
  apply (rewrite_text_replaces_old_forms m content [] (T " ") []).
  - right; left; reflexivity.
  - discriminate.
  - reflexivity.
Defined.

(** C10: when several entries share an old package, the wildcard import
    of that package is rewritten to the new package of the first such
    entry in table order, and no later entry rewrites it again; the
    wildcard import of [com.demo.auth.entity] becomes that of the [User]
    entry's package. *)
Theorem wildcard_first_entry_wins m pre ws post :
  In m IMPORT_MAPPINGS -> ws <> [] -> forallb is_space ws = true ->
  (exists m1, first_same_package IMPORT_MAPPINGS m.1 = Some m1 /\
     rewrite_text (pre ++ T "import" ++ ws ++ wild_body (T m.1) ++ post) =
     rewrite_text pre ++ new_wildcard (T m1.2) ++ rewrite_text post) /\
  first_same_package IMPORT_MAPPINGS "com.demo.auth.entity.Permission" =
    Some ("com.demo.auth.entity.User"%string,
          "com.demo.auth.modules.user.entity.User"%string) /\
  rewrite_text (T "import com.demo.auth.entity.*;") =
    T "import com.demo.auth.modules.user.entity.*;".
Proof.
  intros Hin Hne Hws. split; [by apply rewrite_wild|].
  split; vm_compute; reflexivity.
Qed.

Lemma wildcard_first_entry_wins_witness :
  let m := ("com.demo.auth.entity.RolePermission"%string,
            "com.demo.auth.modules.permission.entity.RolePermission"%string) in
  (exists m1, first_same_package IMPORT_MAPPINGS m.1 = Some m1 /\
     rewrite_text (T "x;" ++ T "import" ++ T " " ++ wild_body (T m.1) ++ T "y") =
     rewrite_text (T "x;") ++ new_wildcard (T m1.2) ++ rewrite_text (T "y")) /\
  first_same_package IMPORT_MAPPINGS "com.demo.auth.entity.Permission" =
    Some ("com.demo.auth.entity.User"%string,
          "com.demo.auth.modules.user.entity.User"%string) /\
  rewrite_text (T "import com.demo.auth.entity.*;") =
    T "import com.demo.auth.modules.user.entity.*;".
Proof.
  intros m.
  apply (wildcard_first_entry_wins m (T "x;") (T " ") (T "y")).
  - do 4 right; left; reflexivity.
  - discriminate.
  - reflexivity.
Defined.

End UpdateImportsSpec.

(** ** The relocator: the properties of the specification *)

Module MigrateSpec.

Import TextFacts FS FSFacts Migrate MigrateFacts PackageFacts Examples.

Local Open Scope string_scope.
Local Open Scope list_scope.

Lemma well_formed_examples :
  Forall (fun st => well_formed (files st) = true)
    [st_plain; st_blocked; st_dest_dir; st_dest_dir_full; st_two_decls;
     st_scenario; st_imports].
Proof. repeat constructor; vm_compute; reflexivity. Qed.

(** C5: an error while creating the destination's directories is not
    caught. With a regular file named [modules] in the tree, the first
    pair's source exists, [mkdir] raises outside the [try] block of
    [move_file], and [main] stops there: no later pair is processed and
    no summary is printed. *)
Lemma main_stops_when_mkdir_raises :
  exists_ st_blocked ["entity"; "User.java"] = true /\
  move_file st_blocked ["entity"; "User.java"]
    ["modules"; "user"; "entity"; "User.java"] = (None, st_blocked, []) /\
  main st_blocked = (false, st_blocked, []).
Proof. repeat split; vm_compute; reflexivity. Qed.

(** C8: the declaration-rewrite phase selects files under [modules/] and
    [common/] only; a path outside the two subtrees is not among the
    files it scans, and what is at that path is unchanged by the phase. *)
Theorem rewrite_phase_scans_two_subtrees st p :
  outside p = true ->
  ~ In p (java_files st) /\
  files (rewrite_phase st).1 !! p = files st !! p.
Proof.
  intros Hp. split.
  - intros Hin%java_files_inside. congruence.
  - destruct (rewrite_phase st) as [st' log] eqn:E.
    by apply (rewrite_phase_agree _ _ _ E).
Qed.

Lemma rewrite_phase_scans_two_subtrees_witness :
  ~ In ["entity"; "User.java"] (java_files st_two_decls) /\
  files (rewrite_phase st_two_decls).1 !! ["entity"; "User.java"] =
  files st_two_decls !! ["entity"; "User.java"].
Proof.
  apply (rewrite_phase_scans_two_subtrees st_two_decls ["entity"; "User.java"]).
  reflexivity.
Defined.

(** C9: the relocator copies and does not move. After a run of [main],
    whether it ran to completion or not, every source of the migration
    table that was a file is still there with its content and metadata:
    the sources lie outside [modules/] and [common/], and both phases
    write inside these subtrees only. *)
Theorem sources_survive st src dest c md :
  In (src, dest) MIGRATIONS ->
  node_at (files st) src = Some (File c md) ->
  outside src = true /\
  node_at (files (main st).1.2) src = Some (File c md).
Proof.
  intros Hin Hsrc. pose proof (migrations_sources _ _ Hin) as Hout.
  split; [done|]. unfold main.
  destruct (main_on MIGRATIONS st) as [[ok st'] log] eqn:E.
  pose proof (main_on_agree _ _ _ _ _ migrations_dests E src Hout) as H.
  destruct src; [done|]. simpl in *. by rewrite H.
Qed.

Lemma sources_survive_witness :
  outside ["entity"; "User.java"] = true /\
  node_at (files (main st_plain).1.2) ["entity"; "User.java"] =
  Some (File user_java md0).
Proof.
  apply (sources_survive st_plain ["entity"; "User.java"]
           ["modules"; "user"; "entity"; "User.java"]).
  - left; reflexivity.
  - vm_compute; reflexivity.
Defined.


Lemma migrations_distinct src dest : In (src, dest) MIGRATIONS -> src <> dest.
Proof.
  intros Hin.
  assert (H : forallb (fun pr => negb (bool_decide (pr.1 = pr.2))) MIGRATIONS
              = true) by (vm_compute; reflexivity).
  rewrite forallb_forall in H. specialize (H _ Hin).
  apply negb_true_iff in H. by apply bool_decide_eq_false in H.
Qed.


Lemma move_all_step src dest rest st moved failed b st' log :
  move_file st src dest = (Some b, st', log) ->
  move_all ((src, dest) :: rest) st moved failed =
  let '(ok, st'', m, f, log') :=
    move_all rest st' (if b then S moved else moved)
      (if b then failed else S failed) in
  (ok, st'', m, f, log ++ log').
Proof. intros H. cbn [move_all]. rewrite H. by destruct b. Qed.




Lemma update_package_declaration_file st p c md :
  node_at (files st) p = Some (File c md) ->
  expand_template (declaration p) = Some (declaration p) ->
  update_package_declaration st p =
    (true,
     State (<[p := File (sub_package (declaration p) (universal_newlines c))
                    (Meta (mode md) (clock st))]> (files st)) (clock st + 1),
     [EvPackageUpdated (new_package p)]).
Proof.
  intros Hp Ht. unfold update_package_declaration, exists_, read_text,
    write_text. cbv zeta. rewrite !Hp. cbn [negb].
  by rewrite (parse_template_literal _ Ht), sub_template_literal.
Qed.




Lemma join_dots_dot_joined parts : join_dots parts = dot_joined parts.
Proof.
  destruct parts as [|a rest]; [done|]. revert a.
  induction rest as [|b rest IH]; intros a.
  - cbn [join_dots dot_joined flat_map]. by rewrite app_nil_r.
  - change (join_dots (a :: b :: rest))
      with (a ++ dot :: join_dots (b :: rest)).
    rewrite (IH b). reflexivity.
Qed.

(** C6 (defect): the package written into a file is not the one derived
    from its directory when a directory name has a backslash.
    [update_package_declaration] derives the package, [com.demo.auth.]
    followed by the directory names joined by dots, and reports it, but
    hands the declaration to [re.sub] unescaped, as a replacement
    template. For [modules/a\nb/F.java] the package derived and reported
    is [com.demo.auth.modules.a\nb]; in the file, the two characters
    [\n] of the directory name have become one newline. *)
Theorem declaration_read_as_template :
  let p := ["modules"; "a\nb"; "F.java"] in
  let derived := T "com.demo.auth.modules.a\nb" in
  let written :=
    T "package com.demo.auth.modules.a" ++ [newline] ++ T "b;" in
  well_formed (files st_backslash) = true /\
  java_files st_backslash = [p] /\
  new_package p = derived /\
  derived = T "com.demo.auth." ++ dot_joined (map T (parent p)) /\
  update_package_declaration st_backslash p =
    (true,
     State (<[p := File written (Meta 420 100)]> (files st_backslash)) 101,
     [EvPackageUpdated derived]) /\
  files (main st_backslash).1.2 !! p = Some (File written (Meta 420 100)) /\
  written <> T "package " ++ derived ++ T ";".
Proof.
  intros p derived written.
  repeat split; try (vm_compute; reflexivity). vm_compute. discriminate.
Qed.



(** The scenario of the specification, evaluated. *)
Lemma scenario_declaration :
  files (update_package_declaration st_scenario ["x"; "y"; "Old.java"]).1.2
    !! ["x"; "y"; "Old.java"] =
  Some (File (T "package com.demo.auth.x.y;") (Meta 420 100)).
Proof. vm_compute. reflexivity. Qed.

End MigrateSpec.

(** ** The import rewriter on files: the properties of the specification *)

Module ImportsMainSpec.

Import FS ImportsMain Examples.

Local Open Scope string_scope.
Local Open Scope list_scope.



Lemma universal_newlines_cons c t :
  universal_newlines (c :: t) =
  if Ascii.eqb c cr then
    newline :: match t with
               | d :: t' => if Ascii.eqb d newline
                            then universal_newlines t'
                            else universal_newlines t
               | [] => []
               end
  else c :: universal_newlines t.
Proof. reflexivity. Qed.

Lemma universal_newlines_no_cr s :
  forallb no_cr (universal_newlines s) = true.
Proof.
  induction s as [s IH] using (induction_ltof1 _ (@length ascii)).
  unfold ltof in IH. destruct s as [|c t]; [done|].
  rewrite universal_newlines_cons.
  destruct (Ascii.eqb c cr) eqn:E.
  - cbn [forallb]. change (no_cr newline) with true. cbn [andb].
    destruct t as [|d t']; [done|].
    destruct (Ascii.eqb d newline); apply IH; simpl; lia.
  - cbn [forallb]. unfold no_cr at 1. rewrite E. cbn [negb andb].
    apply IH. simpl. lia.
Qed.

Lemma universal_newlines_id s :
  forallb no_cr s = true -> universal_newlines s = s.
Proof.
  induction s as [|c s IH]; [done|]. rewrite universal_newlines_cons.
  cbn [forallb]. intros [Hc Hs]%andb_true_iff. unfold no_cr in Hc.
  apply negb_true_iff in Hc. rewrite Hc. by rewrite IH.
Qed.

Lemma rewrite_text_no_cr s :
  forallb no_cr s = true -> forallb no_cr (rewrite_text s) = true.
Proof.
  apply UpdateImportsFacts.update_all_forallb. vm_compute. reflexivity.
Qed.

(** C3: the import rewriter is idempotent. The text transformation of
    [update_imports_in_file], the whole sequence of exact and wildcard
    substitutions over the table, applied to its own output changes
    nothing; and a second run on a file, after a first one, writes
    nothing and leaves the file system as the first run left it. *)
Theorem rewriter_idempotent :
  (forall content,
     rewrite_text (rewrite_text content) = rewrite_text content) /\
  (forall st p,
     let st1 := (update_imports_in_file st p).1.2 in
     (update_imports_in_file st1 p).1.1 = false /\
     (update_imports_in_file st1 p).1.2 = st1).
Proof.
  split; [apply UpdateImportsFacts.rewrite_text_idempotent|].
  intros st p. unfold update_imports_in_file at 1, read_text.
  destruct (node_at (files st) p) as [[c md|]|] eqn:Hp.
  2,3: cbn [fst snd]; unfold update_imports_in_file, read_text;
       by rewrite Hp.
  set (original := universal_newlines c).
  assert (Hfix : universal_newlines (rewrite_text original) =
                 rewrite_text original).
  { apply universal_newlines_id, rewrite_text_no_cr,
      universal_newlines_no_cr. }
  case_bool_decide as Hc.
  - unfold write_text. cbv zeta. rewrite Hp. cbn [fst snd].
    unfold update_imports_in_file, read_text. cbn [files].
    assert (Hp' : node_at (<[p := File (rewrite_text original)
                      (Meta (mode md) (clock st))]> (files st)) p =
                  Some (File (rewrite_text original)
                          (Meta (mode md) (clock st)))).
    { destruct p; [done|]. apply lookup_insert_eq. }
    rewrite Hp', Hfix, UpdateImportsFacts.rewrite_text_idempotent.
    by rewrite bool_decide_eq_false_2 by (intros H; by apply H).
  - cbn [fst snd]. unfold update_imports_in_file, read_text. rewrite Hp.
    cbv zeta. fold original.
    by rewrite bool_decide_eq_false_2 by (intros H; by apply H).
Qed.

End ImportsMainSpec.

(** ** More on the import rewriter's text transformation *)

Module RewriteTextMore.

Import Seg Rules TextFacts RulesFacts UpdateImportsFacts.

#[local] Arguments T : simpl never.
#[local] Arguments re_sub : simpl never.
#[local] Arguments semi : simpl never.

Section Rules.

Variable rules : list (text * text).
Hypothesis Hok : rules_ok rules = true.
Hypothesis Hclosed : rules_closed rules = true.

(** A text is left as it is exactly when no pattern matches in it. *)
Lemma apply_all_fixed s :
  apply_all rules s = s <->
  Forall (fun rl => occursb (rl.1 ++ [semi]) s = false) rules.
Proof.
  split.
  - intros H. apply Forall_forall. intros rl Hin%list_elem_of_In.
    rewrite <- H. by apply occursb_apply_all.
  - induction s as [s Hs|seg rest Hs IH] using semi_ind; intros H.
    + by apply apply_all_nosemi.
    + rewrite (apply_all_seg _ Hok) by done.
      assert (H2 : Forall (fun rl => seg_has rl.1 seg = false /\
                     occursb (rl.1 ++ [semi]) rest = false) rules).
      { rewrite Forall_forall in H. apply Forall_forall. intros rl Hin.
        specialize (H rl Hin). apply list_elem_of_In in Hin.
        destruct (rule_clean _ Hok rl Hin) as [[_ Hl]%clean_spec _].
        rewrite occursb_seg in H by done. by apply orb_false_iff in H. }
      rewrite fix_all_none, IH; [done| |].
      * eapply Forall_impl; [exact H2|]. by intros rl [_ ?].
      * eapply Forall_impl; [exact H2|]. by intros rl [? _].
Qed.

(** The rewriting of a text that ends with [;] does not depend on what
    follows it. *)
Lemma apply_all_app a b :
  apply_all rules (a ++ semi :: b) =
  apply_all rules (a ++ [semi]) ++ apply_all rules b.
Proof.
  induction a as [s Hs|seg rest Hs IH] using semi_ind.
  - rewrite (apply_all_seg _ Hok s b), (apply_all_seg _ Hok s []) by done.
    rewrite (apply_all_nosemi rules []) by done.
    by rewrite <- app_assoc.
  - rewrite <- !app_assoc. cbn [app].
    rewrite (apply_all_seg _ Hok seg (rest ++ semi :: b)) by done.
    rewrite (apply_all_seg _ Hok seg (rest ++ [semi])) by done.
    rewrite IH. by rewrite <- (app_assoc (fix_all rules seg)).
Qed.

(** A statement whose name no rule has is kept as it is, white space
    included. *)
Lemma apply_all_other pre ws a post :
  ws <> [] -> forallb is_space ws = true ->
  lookup_rule rules a = None -> clean a = true ->
  apply_all rules (pre ++ T "import" ++ ws ++ (a ++ [semi]) ++ post) =
  apply_all rules pre ++ (T "import" ++ ws ++ a ++ [semi]) ++
  apply_all rules post.
Proof.
  intros Hne Hws Hr [Ha Has]%clean_spec.
  assert (Hw : nosemi ws = true).
  { clear -Hws. induction ws as [|c w IH]; [done|]. simpl in Hws.
    apply andb_true_iff in Hws as [Hc Hws]. apply nosemi_cons.
    split; [|by apply IH]. intros ->. by rewrite is_space_semi in Hc. }
  induction pre as [s Hs|seg rest Hs IH] using semi_ind.
  - rewrite (apply_all_nosemi _ s) by done.
    replace (s ++ T "import" ++ ws ++ (a ++ [semi]) ++ post)
      with ((s ++ T "import" ++ ws ++ a) ++ semi :: post)
      by by rewrite <- !app_assoc.
    rewrite (apply_all_seg _ Hok).
    + rewrite (fix_all_stmt _ Hok Hclosed), Hr by done.
      by rewrite <- !app_assoc.
    + rewrite !nosemi_app, Hs, Hw, Has. done.
  - rewrite <- app_assoc. cbn [app].
    rewrite (apply_all_seg _ Hok seg (rest ++ _)) by done.
    rewrite (apply_all_seg _ Hok seg rest) by done.
    rewrite IH. by rewrite <- (app_assoc (fix_all rules seg)).
Qed.

End Rules.

Lemma occursb_rules_table s :
  Forall (fun rl => occursb (rl.1 ++ [semi]) s = false)
    (rules_of IMPORT_MAPPINGS) <->
  (forall m, In m IMPORT_MAPPINGS ->
     occursb (exact_body (T m.1)) s = false /\
     occursb (wild_body (T m.1)) s = false).
Proof.
  rewrite Forall_forall. split.
  - intros H m Hin. split.
    + apply (H (T m.1, T m.2)). apply list_elem_of_In. by apply in_rules_exact.
    + unfold wild_body. change (T ".*;") with (T ".*" ++ [semi]).
      rewrite (app_assoc (rsplit_dot (T m.1))).
      apply (H (rsplit_dot (T m.1) ++ T ".*", rsplit_dot (T m.2) ++ T ".*")).
      apply list_elem_of_In. by apply in_rules_wild.
  - intros H rl Hin%list_elem_of_In. unfold rules_of in Hin.
    apply in_flat_map in Hin as (m & Hm & [<-|[<-|[]]]);
      destruct (H m Hm) as [H1 H2]; [done|].
    unfold wild_body in H2. change (T ".*;") with (T ".*" ++ [semi]) in H2.
    by rewrite (app_assoc (rsplit_dot (T m.1))) in H2.
Qed.

Lemma occursb_true body s :
  occursb body s = true ->
  exists pre ws post, ws <> [] /\ forallb is_space ws = true /\
    s = pre ++ T "import" ++ ws ++ body ++ post.
Proof.
  induction s as [|c s IH]; cbn [occursb].
  - destruct (match_import body []) as [r|] eqn:E; [|done].
    apply match_import_Some in E as (ws & ? & ? & E). by exists [], ws, r.
  - destruct (match_import body (c :: s)) as [r|] eqn:E.
    + apply match_import_Some in E as (ws & ? & ? & E). by exists [], ws, r.
    + intros (pre & ws & post & ? & ? & ->)%IH. by exists (c :: pre), ws, post.
Qed.

Lemma occursb_false_iff body s :
  occursb body s = false <->
  (forall pre ws post, ws <> [] -> forallb is_space ws = true ->
     s <> pre ++ T "import" ++ ws ++ body ++ post).
Proof.
  split; [apply occursb_false|]. intros H.
  destruct (occursb body s) eqn:E; [|done].
  apply occursb_true in E as (pre & ws & post & ? & ? & ->).
  by destruct (H pre ws post).
Qed.

(** The rewriter leaves a text as it is exactly when the text holds no
    match of a pattern of the table: neither the statement of an old
    name nor the wildcard statement of an old package. *)
Theorem rewrite_text_unchanged_iff content :
  rewrite_text content = content <->
  (forall m pre ws post,
     In m IMPORT_MAPPINGS -> ws <> [] -> forallb is_space ws = true ->
     content <> pre ++ T "import" ++ ws ++ exact_body (T m.1) ++ post /\
     content <> pre ++ T "import" ++ ws ++ wild_body (T m.1) ++ post).
Proof.
  rewrite (rewrite_text_rules content).
  rewrite (apply_all_fixed _ import_rules_ok import_rules_closed content).
  rewrite occursb_rules_table. split.
  - intros H m pre ws post Hin Hne Hws. destruct (H m Hin) as [H1 H2].
    split; by apply occursb_false.
  - intros H m Hin. split; apply occursb_false_iff;
      intros pre ws post Hne Hws; by destruct (H m pre ws post).
Qed.

(** The rewriter works statement by statement: the rewriting of a text
    up to a [;] does not depend on the text after it. *)
Theorem rewrite_text_local a b :
  rewrite_text (a ++ semi :: b) =
  rewrite_text (a ++ [semi]) ++ rewrite_text b.
Proof.
  rewrite (rewrite_text_rules (a ++ semi :: b)),
    (rewrite_text_rules (a ++ [semi])), (rewrite_text_rules b).
  exact (apply_all_app _ import_rules_ok a b).
Qed.

(** An import of a name that is no old name and no old wildcard of the
    table is kept as it is, with its white space, whatever is around it. *)
Theorem rewrite_text_keeps_other_imports pre ws a post :
  ws <> [] -> forallb is_space ws = true -> clean a = true ->
  (forall m, In m IMPORT_MAPPINGS ->
     a <> T m.1 /\ a <> rsplit_dot (T m.1) ++ T ".*") ->
  rewrite_text (pre ++ T "import" ++ ws ++ (a ++ T ";") ++ post) =
  rewrite_text pre ++ (T "import" ++ ws ++ a ++ T ";") ++ rewrite_text post.
Proof.
  intros Hne Hws Ha Hm.
  rewrite (rewrite_text_rules pre), (rewrite_text_rules post),
    (rewrite_text_rules (pre ++ _)).
  apply (apply_all_other _ import_rules_ok import_rules_closed); try done.
  apply lookup_rule_key, Forall_forall. intros rl Hin%list_elem_of_In.
  unfold rules_of in Hin.
  apply in_flat_map in Hin as (m & Hin & [<-|[<-|[]]]);
    by destruct (Hm m Hin).
Qed.

Lemma rewrite_text_keeps_other_imports_witness :
  rewrite_text ([] ++ T "import" ++ T "  " ++ (T "java.util.List" ++ T ";")
                ++ T "x") =
  rewrite_text [] ++ (T "import" ++ T "  " ++ T "java.util.List" ++ T ";") ++
  rewrite_text (T "x").
Proof.
  apply (rewrite_text_keeps_other_imports [] (T "  ") (T "java.util.List")
           (T "x")); try reflexivity; try discriminate.
  intros m Hin.
  assert (H : forallb (fun m =>
            negb (bool_decide (T "java.util.List" = T m.1)) &&
            negb (bool_decide (T "java.util.List" =
                               rsplit_dot (T m.1) ++ T ".*")))
            IMPORT_MAPPINGS = true) by (vm_compute; reflexivity).
  rewrite forallb_forall in H. specialize (H m Hin).
  apply andb_true_iff in H as [H1%negb_true_iff H2%negb_true_iff].
  by apply bool_decide_eq_false in H1, H2.
Defined.

End RewriteTextMore.

(** ** The import rewriter over a tree *)

Module ImportsMainMore.

Import ImportsMain Examples Runs UpdateImportsFacts ImportsMainSpec.

Lemma update_imports_in_file_cases st p :
  (exists log, update_imports_in_file st p = (false, st, log)) \/
  (exists c md,
     node_at (files st) p = Some (File c md) /\
     rewrite_text (universal_newlines c) <> universal_newlines c /\
     update_imports_in_file st p =
       (true,
        State (<[p := File (rewrite_text (universal_newlines c))
                       (Meta (mode md) (clock st))]> (files st))
          (clock st + 1), [])).
Proof.
  unfold update_imports_in_file, read_text, write_text.
  destruct (node_at (files st) p) as [[c md|]|] eqn:Hp; [|left; eauto..].
  cbv zeta. case_bool_decide as Hc; [|left; eauto].
  right. by exists c, md.
Qed.

(** [update_imports_in_file] touches the file it is given only, and
    keeps it a file. *)
Lemma update_imports_in_file_other st p q :
  q <> p ->
  files (update_imports_in_file st p).1.2 !! q = files st !! q.
Proof.
  intros Hq.
  destruct (update_imports_in_file_cases st p)
    as [[log ->]|(c & md & _ & _ & ->)]; [done|].
  cbn [fst snd files]. by apply lookup_insert_ne.
Qed.

Lemma update_imports_in_file_kind st p q :
  kind (node_at (files (update_imports_in_file st p).1.2) q) =
  kind (node_at (files st) q).
Proof.
  destruct (update_imports_in_file_cases st p)
    as [[log ->]|(c & md & Hp & _ & ->)]; [done|].
  cbn [fst snd files]. destruct q as [|a q]; [done|]. cbn [node_at].
  destruct (decide (a :: q = p)) as [<-|Hne].
  - rewrite lookup_insert_eq. cbn [node_at] in Hp. by rewrite Hp.
  - by rewrite lookup_insert_ne.
Qed.

Lemma settled_after st p : settled (update_imports_in_file st p).1.2 p.
Proof.
  unfold settled.
  destruct (update_imports_in_file_cases st p)
    as [[log H]|(c & md & Hp & Hc & ->)].
  - rewrite H. cbn [fst snd].
    destruct (node_at (files st) p) as [[c md|]|] eqn:Hp; [|done..].
    revert H. unfold update_imports_in_file, read_text, write_text.
    rewrite Hp. cbv zeta. case_bool_decide as Hc; done.
  - cbn [fst snd files].
    assert (Hp' : node_at (<[p := File (rewrite_text (universal_newlines c))
                      (Meta (mode md) (clock st))]> (files st)) p =
                  Some (File (rewrite_text (universal_newlines c))
                          (Meta (mode md) (clock st)))).
    { destruct p; [done|]. apply lookup_insert_eq. }
    rewrite Hp'.
    rewrite (universal_newlines_id (rewrite_text _))
      by apply rewrite_text_no_cr, universal_newlines_no_cr.
    apply rewrite_text_idempotent.
Qed.

Lemma settled_kept st p q :
  settled st q -> settled (update_imports_in_file st p).1.2 q.
Proof.
  intros Hq. destruct (decide (q = p)) as [->|Hne]; [apply settled_after|].
  unfold settled in *. destruct q as [|a q]; [done|]. cbn [node_at] in *.
  by rewrite update_imports_in_file_other.
Qed.

(** On a settled path nothing is written. *)
Lemma settled_no_write st p :
  settled st p ->
  (update_imports_in_file st p).1.1 = false /\
  (update_imports_in_file st p).1.2 = st.
Proof.
  unfold settled. intros Hs.
  destruct (update_imports_in_file_cases st p)
    as [[log ->]|(c & md & Hp & Hc & _)]; [done|].
  by rewrite Hp in Hs.
Qed.

Lemma update_files_cons p ps st n :
  update_files (p :: ps) st n =
  let r := update_imports_in_file st p in
  let '(st'', n', log') :=
    update_files ps r.1.2 (if r.1.1 then S n else n) in
  (st'', n',
   (if r.1.1 then r.2 ++ [EvImportUpdated p] else r.2) ++ log').
Proof.
  cbn [update_files].
  by destruct (update_imports_in_file st p) as [[r st'] log].
Qed.

(** What a loop over files keeps and reaches. *)
Lemma update_files_spec ps st n :
  let st' := (update_files ps st n).1.1 in
  (forall q, ~ In q ps -> files st' !! q = files st !! q) /\
  (forall q, kind (node_at (files st') q) = kind (node_at (files st) q)) /\
  (forall q, settled st q -> settled st' q) /\
  (forall q, In q ps -> settled st' q) /\
  (update_files ps st n).1.2 =
    n + length (List.filter is_import_updated (update_files ps st n).2).
Proof.
  revert st n. induction ps as [|p ps IH]; intros st n.
  - cbn. repeat split; try done; lia.
  - rewrite update_files_cons. cbv zeta.
    set (r := update_imports_in_file st p).
    specialize (IH r.1.2 (if r.1.1 then S n else n)).
    destruct (update_files ps r.1.2 (if r.1.1 then S n else n))
      as [[st2 n2] log2]. cbn [fst snd] in *.
    destruct IH as (I1 & I2 & I3 & I4 & I5).
    split; [|split; [|split; [|split]]].
    + intros q Hq. rewrite I1 by (intros ?; apply Hq; by right).
      apply update_imports_in_file_other. intros ->. apply Hq. by left.
    + intros q. rewrite I2. apply update_imports_in_file_kind.
    + intros q Hq. by apply I3, settled_kept.
    + intros q [<-|Hq]; [apply I3, settled_after|by apply I4].
    + rewrite I5, List.filter_app, length_app.
      destruct (update_imports_in_file_cases st p)
        as [[log H]|(c & md & _ & _ & H)]; subst r; rewrite H;
        [|cbn; lia].
      cbn [fst snd].
      assert (List.filter is_import_updated log = []) as ->; [|cbn; lia].
      revert H. unfold update_imports_in_file.
      repeat case_match; intros [= <-]; done.
Qed.

Lemma in_paths fs p : In p (paths fs) <-> is_Some (fs !! p).
Proof.
  unfold paths. rewrite <- list_elem_of_In, list_elem_of_fmap. split.
  - intros ([q n] & -> & H%elem_of_map_to_list). by exists n.
  - intros [n H]. exists (p, n). split; [done|].
    by apply elem_of_map_to_list.
Qed.

Lemma in_glob_all fs p :
  In p (glob_all fs) <-> is_Some (fs !! p) /\ any_java p = true.
Proof. unfold glob_all. by rewrite filter_In, in_paths. Qed.

Lemma update_files_settled ps st n :
  (forall q, In q ps -> settled st q) ->
  (update_files ps st n).1.1 = st /\ (update_files ps st n).1.2 = n.
Proof.
  revert n. induction ps as [|p ps IH]; intros n Hs; [done|].
  rewrite update_files_cons. cbv zeta.
  destruct (settled_no_write st p (Hs p (or_introl eq_refl))) as [-> ->].
  specialize (IH n (fun q Hq => Hs q (or_intror Hq))).
  destruct (update_files ps st n) as [[st2 n2] log2]. done.
Qed.

Lemma imports_main_eq st :
  ImportsMain.main st =
  ((update_files (glob_all (files st)) st 0).1.1,
   (update_files (glob_all (files st)) st 0).2 ++
   [EvImportsUpdated (update_files (glob_all (files st)) st 0).1.2]).
Proof.
  unfold ImportsMain.main.
  by destruct (update_files (glob_all (files st)) st 0) as [[st' n] log].
Qed.

(** A run of the import rewriter creates and deletes nothing: every path
    keeps its kind (file, directory or absent), and a path whose name
    does not match [*.java] keeps what it holds. *)
Theorem imports_main_keeps_tree st q :
  kind (node_at (files (ImportsMain.main st).1) q) =
    kind (node_at (files st) q) /\
  (any_java q = false ->
   files (ImportsMain.main st).1 !! q = files st !! q).
Proof.
  rewrite imports_main_eq. cbn [fst].
  destruct (update_files_spec (glob_all (files st)) st 0)
    as (H1 & H2 & _).
  split; [apply H2|]. intros Hq. apply H1.
  intros [_ Hj]%in_glob_all. congruence.
Qed.

(** After a run of the import rewriter a second run writes nothing: it
    leaves the file system as the first run left it and reports no
    updated file. *)
Theorem imports_main_second_run st :
  exists log,
    ImportsMain.main (ImportsMain.main st).1 =
      ((ImportsMain.main st).1, log ++ [EvImportsUpdated 0]).
Proof.
  set (st' := (ImportsMain.main st).1).
  assert (Hs : forall q, In q (glob_all (files st')) -> settled st' q).
  { intros q [Hq Hj]%in_glob_all. unfold st'.
    rewrite imports_main_eq. cbn [fst].
    destruct (update_files_spec (glob_all (files st)) st 0)
      as (_ & H2 & _ & H4 & _).
    apply H4, in_glob_all. split; [|done].
    pose proof (H2 q) as Hk. fold (ImportsMain.main st) in Hk.
    destruct q as [|a q]; [done|]. cbn [node_at] in Hk.
    assert (Hk' : kind (files st' !! (a :: q)) = kind (files st !! (a :: q))).
    { unfold st'. rewrite imports_main_eq. exact Hk. }
    destruct Hq as [n Hn]. rewrite Hn in Hk'.
    destruct (files st !! (a :: q)) as [n'|]; [by eexists|].
    by destruct n. }
  destruct (update_files_settled _ st' 0 Hs) as [H1 H2].
  rewrite (imports_main_eq st'), H1, H2. by eexists.
Qed.

(** The count that [main] prints is the number of files it reported as
    updated. *)
Theorem imports_main_count st :
  exists log,
    (ImportsMain.main st).2 =
      log ++ [EvImportsUpdated
                (length (List.filter is_import_updated log))].
Proof.
  rewrite imports_main_eq. cbn [snd].
  destruct (update_files_spec (glob_all (files st)) st 0)
    as (_ & _ & _ & _ & H5).
  eexists. by rewrite H5.
Qed.

End ImportsMainMore.

(** ** The relocator over a tree *)

Module MigrateMore.

Import Migrate Examples Runs TextFacts FSFacts MigrateFacts PackageFacts
  ImportsMainMore.

(** Directory creation fails exactly when a file is in the way. *)
Lemma mkdir_from_None fs pre rest :
  mkdir_from fs pre rest = None <->
  exists k c md, k < length rest /\
    fs !! (pre ++ take (S k) rest) = Some (File c md).
Proof.
  revert fs pre. induction rest as [|a rest IH]; intros fs pre.
  - cbn. split; [done|]. intros (k & _ & _ & Hk & _). lia.
  - cbn [mkdir_from].
    assert (Hshift : forall k, pre ++ take (S (S k)) (a :: rest) =
                               (pre ++ [a]) ++ take (S k) rest).
    { intros k. cbn [take]. by rewrite <- app_assoc. }
    assert (Hne : forall k, k < length rest ->
                    (pre ++ [a]) ++ take (S k) rest <> pre ++ [a]).
    { intros k Hk E. apply (f_equal length) in E.
      rewrite !length_app, length_take in E. cbn [length] in E. lia. }
    destruct (fs !! (pre ++ [a])) as [[c md|]|] eqn:E.
    + split; [intros _|done]. exists 0, c, md. split; [simpl; lia|done].
    + rewrite IH. split.
      * intros (k & c & md & Hk & H). exists (S k), c, md.
        split; [simpl; lia|]. by rewrite Hshift.
      * intros ([|k] & c & md & Hk & H); [change (take 1 (a :: rest)) with [a] in H; congruence|].
        exists k, c, md. split; [simpl in Hk; lia|]. by rewrite <- Hshift.
    + rewrite IH. split.
      * intros (k & c & md & Hk & H). exists (S k), c, md.
        split; [simpl; lia|]. rewrite Hshift.
        by rewrite lookup_insert_ne in H by (intros ?; by eapply (Hne k)).
      * intros ([|k] & c & md & Hk & H); [change (take 1 (a :: rest)) with [a] in H; congruence|].
        simpl in Hk. exists k, c, md. split; [lia|].
        rewrite lookup_insert_ne
          by (intros ?; eapply (Hne k); [lia|done]).
        by rewrite <- Hshift.
Qed.

(** What directory creation adds: directories along the path. *)
Lemma mkdir_from_new fs pre rest fs' p :
  mkdir_from fs pre rest = Some fs' ->
  fs' !! p = fs !! p \/
  (fs !! p = None /\ fs' !! p = Some Dir /\
   exists k, k < length rest /\ p = pre ++ take (S k) rest).
Proof.
  revert fs pre. induction rest as [|a rest IH]; intros fs pre; cbn [mkdir_from].
  - intros [= <-]. by left.
  - assert (Hshift : forall k, pre ++ take (S (S k)) (a :: rest) =
                               (pre ++ [a]) ++ take (S k) rest).
    { intros k. cbn [take]. by rewrite <- app_assoc. }
    destruct (fs !! (pre ++ [a])) as [[c md|]|] eqn:E; [done| |].
    + intros H. destruct (IH _ _ H) as [Hp|(Hn & Hd & k & Hk & ->)];
        [by left|right].
      split; [done|]. split; [done|]. exists (S k).
      split; [simpl; lia|]. by rewrite Hshift.
    + intros H. destruct (decide (p = pre ++ [a])) as [->|Hne].
      * right. split; [done|]. split.
        -- eapply mkdir_from_mono; [done|]. by rewrite lookup_insert_eq.
        -- exists 0. split; [simpl; lia|]. done.
      * destruct (IH _ _ H) as [Hp|(Hn & Hd & k & Hk & ->)].
        -- left. by rewrite Hp, lookup_insert_ne.
        -- right. rewrite lookup_insert_ne in Hn by done.
           split; [done|]. split; [done|]. exists (S k).
           split; [simpl; lia|]. by rewrite Hshift.
Qed.

(** [move_file] lets an exception escape exactly when the source exists
    and a regular file is in the way of the destination's directories. *)
Theorem move_file_raises_iff st src dest :
  (move_file st src dest).1.1 = None <->
  exists_ st src = true /\
  exists k c md, k < length (parent dest) /\
    files st !! take (S k) (parent dest) = Some (File c md).
Proof.
  rewrite <- (mkdir_from_None (files st) [] (parent dest)).
  unfold move_file, mkdir_parents.
  destruct (exists_ st src); cbn [negb fst].
  - destruct (mkdir_from (files st) [] (parent dest)) as [fs|].
    + destruct (copy2 _ src dest); cbn; split; [done|by intros [_ ?]|done|
        by intros [_ ?]].
    + cbn. done.
  - cbn. split; [done|by intros [? _]].
Qed.

(** *** The counts of the first loop *)

Lemma move_file_log st src dest :
  match (move_file st src dest).1.1 with
  | Some true =>
      List.filter is_moved (move_file st src dest).2 = [EvMoved src dest] /\
      List.filter is_move_failure (move_file st src dest).2 = []
  | Some false =>
      List.filter is_moved (move_file st src dest).2 = [] /\
      length (List.filter is_move_failure (move_file st src dest).2) = 1
  | None => (move_file st src dest).2 = []
  end.
Proof.
  unfold move_file. repeat case_match; simplify_eq; done.
Qed.

Lemma move_all_cons src dest pairs st moved failed :
  move_all ((src, dest) :: pairs) st moved failed =
  let r := move_file st src dest in
  match r.1.1 with
  | None => (false, r.1.2, moved, failed, r.2)
  | Some b =>
      let '(ok, st'', m, f, log') :=
        move_all pairs r.1.2 (if b then S moved else moved)
          (if b then failed else S failed) in
      (ok, st'', m, f, r.2 ++ log')
  end.
Proof.
  cbn [move_all]. destruct (move_file st src dest) as [[[[|]|] st'] log];
    done.
Qed.

Lemma move_all_counts pairs st moved failed :
  let r := move_all pairs st moved failed in
  r.1.1.2 = moved + length (List.filter is_moved r.2) /\
  r.1.2 = failed + length (List.filter is_move_failure r.2) /\
  (r.1.1.1.1 = true ->
   r.1.1.2 + r.1.2 = moved + failed + length pairs).
Proof.
  revert st moved failed.
  induction pairs as [|[src dest] pairs IH]; intros st moved failed.
  - cbn. lia.
  - rewrite move_all_cons. cbv zeta.
    pose proof (move_file_log st src dest) as Hlog.
    destruct (move_file st src dest) as [[[b|] st1] log1]; cbn [fst snd] in *.
    + specialize (IH st1 (if b then S moved else moved)
                     (if b then failed else S failed)).
      destruct (move_all pairs st1 _ _) as [[[[ok st2] m2] f2] log2].
      cbn [fst snd] in *. rewrite !List.filter_app, !length_app.
      destruct IH as (I1 & I2 & I3).
      destruct b, Hlog as [H1 H2]; rewrite ?H1, ?H2; cbn [length];
        (split; [lia|split; [lia|]]); intros Hok; specialize (I3 Hok);
        cbn [length]; lia.
    + subst log1. cbn. split; [lia|]. split; [lia|done].
Qed.

(** When [main] runs to completion, the summary it prints accounts for
    every pair of the table: the two counts add up to the number of
    pairs, and they are the numbers of pairs reported as moved and as
    failed in the lines before. *)
Theorem main_summary_counts st :
  (Migrate.main st).1.1 = true ->
  exists moved failed log1 log2,
    (Migrate.main st).2 = log1 ++ [EvMoveSummary moved failed] ++ log2 /\
    moved + failed = length MIGRATIONS /\
    moved = length (List.filter is_moved log1) /\
    failed = length (List.filter is_move_failure log1).
Proof.
  unfold Migrate.main, main_on.
  destruct (move_all_counts MIGRATIONS st 0 0) as (Hm & Hf & Hsum).
  destruct (move_all MIGRATIONS st 0 0) as [[[[ok st1] m] f] log1].
  cbn [fst snd] in *. destruct ok; [|done]. intros _.
  destruct (rewrite_phase st1) as [st2 log2]. cbn [snd].
  exists m, f, log1, log2. split; [done|]. split; [|done].
  rewrite Hsum by done. lia.
Qed.

Lemma main_summary_counts_witness :
  exists moved failed log1 log2,
    (Migrate.main st_plain).2 = log1 ++ [EvMoveSummary moved failed] ++ log2 /\
    moved + failed = length MIGRATIONS /\
    moved = length (List.filter is_moved log1) /\
    failed = length (List.filter is_move_failure log1).
Proof.
  apply (main_summary_counts st_plain). vm_compute. reflexivity.
Defined.

(** *** Nothing is removed *)

Lemma keeps_refl st : keeps st st.
Proof. by intros p n ->. Qed.

Lemma keeps_trans st1 st2 st3 : keeps st1 st2 -> keeps st2 st3 -> keeps st1 st3.
Proof.
  intros H1 H2 p n Hp. specialize (H1 p n Hp).
  destruct (files st2 !! p) as [n2|] eqn:E; [|by destruct n].
  rewrite (H2 p n2 E). done.
Qed.

Lemma copy2_Some st src dst st' :
  copy2 st src dst = Some st' ->
  let target := copy_target (files st) src dst in
  exists c md,
    node_at (files st) src = Some (File c md) /\ src <> target /\
    is_dir (files st) target = false /\
    is_dir (files st) (parent target) = true /\
    st' = State (<[target := File c md]> (files st)) (clock st).
Proof.
  unfold copy2. destruct (node_at (files st) src) as [[c md|]|]; [|done..].
  case_bool_decide as Hsd; [done|].
  destruct (is_dir (files st) (copy_target (files st) src dst)) eqn:Hd;
    [done|].
  destruct (is_dir (files st) (parent (copy_target (files st) src dst)))
    eqn:Hp; [|done].
  intros [= <-]. by exists c, md.
Qed.

Lemma mkdir_parents_keeps st q st' : mkdir_parents st q = Some st' -> keeps st st'.
Proof.
  unfold mkdir_parents.
  destruct (mkdir_from (files st) [] q) as [fs|] eqn:E; [|done].
  intros [= <-] p n Hp. cbn [files].
  by rewrite (mkdir_from_mono _ _ _ _ _ _ E Hp).
Qed.

Lemma copy2_keeps st src dst st' : copy2 st src dst = Some st' -> keeps st st'.
Proof.
  intros (c & md & _ & _ & Hd & _ & ->)%copy2_Some p n Hp. cbn [files].
  destruct (decide (p = copy_target (files st) src dst)) as [->|Hne].
  - rewrite lookup_insert_eq. unfold is_dir, node_at in Hd.
    destruct (copy_target (files st) src dst); [done|].
    rewrite Hp in Hd. by destruct n.
  - by rewrite lookup_insert_ne, Hp.
Qed.

Lemma move_file_keeps st src dest : keeps st (move_file st src dest).1.2.
Proof.
  unfold move_file. destruct (negb (exists_ st src)); [apply keeps_refl|].
  destruct (mkdir_parents st (parent dest)) as [st1|] eqn:E1;
    [|apply keeps_refl].
  apply mkdir_parents_keeps in E1.
  destruct (copy2 st1 src dest) as [st2|] eqn:E2; cbn [fst snd]; [|done].
  eapply keeps_trans; [done|]. by eapply copy2_keeps.
Qed.

Lemma move_all_keeps pairs st moved failed :
  keeps st (move_all pairs st moved failed).1.1.1.2.
Proof.
  revert st moved failed.
  induction pairs as [|[src dest] pairs IH]; intros st moved failed.
  - apply keeps_refl.
  - rewrite move_all_cons. cbv zeta.
    pose proof (move_file_keeps st src dest) as H1.
    destruct (move_file st src dest) as [[[b|] st1] log1]; cbn [fst snd] in *;
      [|done].
    specialize (IH st1 (if b then S moved else moved)
                   (if b then failed else S failed)).
    destruct (move_all pairs st1 _ _) as [[[[ok st2] m2] f2] log2].
    cbn [fst snd] in *. by eapply keeps_trans.
Qed.

Lemma update_package_declaration_keeps st p :
  keeps st (update_package_declaration st p).1.2.
Proof.
  unfold update_package_declaration, read_text, write_text.
  destruct (negb (exists_ st p)); [apply keeps_refl|].
  destruct (node_at (files st) p) as [[c md|]|] eqn:Hp; [|apply keeps_refl..].
  destruct (parse_template (declaration p)); [|apply keeps_refl].
  cbn [fst snd]. intros q n Hq. cbn [files].
  destruct (decide (q = p)) as [->|Hne].
  - rewrite lookup_insert_eq. destruct p; [done|]. cbn [node_at] in Hp.
    by rewrite Hp in Hq; injection Hq as <-.
  - by rewrite lookup_insert_ne, Hq.
Qed.

Lemma update_packages_cons p ps st n :
  update_packages (p :: ps) st n =
  let r := update_package_declaration st p in
  let '(st'', n', log') :=
    update_packages ps r.1.2 (if r.1.1 then S n else n) in
  (st'', n', r.2 ++ log').
Proof.
  cbn [update_packages].
  by destruct (update_package_declaration st p) as [[r st'] log].
Qed.

Lemma update_packages_keeps ps st n :
  keeps st (update_packages ps st n).1.1.
Proof.
  revert st n. induction ps as [|p ps IH]; intros st n; [apply keeps_refl|].
  rewrite update_packages_cons. cbv zeta.
  pose proof (update_package_declaration_keeps st p) as H1.
  set (r := update_package_declaration st p) in *.
  specialize (IH r.1.2 (if r.1.1 then S n else n)).
  destruct (update_packages ps r.1.2 _) as [[st2 n2] log2].
  cbn [fst snd] in *. by eapply keeps_trans.
Qed.

(** The relocator removes nothing: every node of the tree is still there
    after a run of [main], a file as a file and a directory as a
    directory, whether the run completes or not. *)
Theorem main_keeps_nodes st p n :
  files st !! p = Some n ->
  kind (files (Migrate.main st).1.2 !! p) = kind (Some n).
Proof.
  revert p n. fold (keeps st (Migrate.main st).1.2).
  unfold Migrate.main, main_on.
  pose proof (move_all_keeps MIGRATIONS st 0 0) as H1.
  destruct (move_all MIGRATIONS st 0 0) as [[[[ok st1] m] f] log1].
  cbn [fst snd] in *. destruct ok; [|done].
  unfold rewrite_phase.
  pose proof (update_packages_keeps (java_files st1) st1 0) as H2.
  destruct (update_packages (java_files st1) st1 0) as [[st2 n2] log2].
  cbn [fst snd] in *. by eapply keeps_trans.
Qed.

Lemma main_keeps_nodes_witness :
  kind (files (Migrate.main st_blocked).1.2 !! ["modules"%string]) =
  kind (Some (File (T "notes") md0)).
Proof.
  apply (main_keeps_nodes st_blocked ["modules"%string]). reflexivity.
Defined.

(** *** A first migration *)

Lemma outside_prefix p q : p `prefix_of` q -> p <> [] -> outside p = outside q.
Proof. intros [k ->] Hp. by destruct p. Qed.

Lemma outside_take k q : outside (take (S k) q) = outside q.
Proof. by destruct q. Qed.

Lemma node_at_agree st0 st p :
  agree_outside st0 st -> outside p = true ->
  node_at (files st) p = node_at (files st0) p.
Proof. intros H Hp. destruct p; [done|]. cbn [node_at]. by apply H. Qed.

Lemma fresh_spec fs p n : fresh fs = true -> fs !! p = Some n -> outside p = true.
Proof.
  unfold fresh. rewrite forallb_forall. intros H Hp. apply H, in_paths. eauto.
Qed.

Lemma node_at_inside fs p : outside p = false -> node_at fs p = fs !! p.
Proof. by destruct p. Qed.

Lemma mkdir_parents_mono st q st' p n :
  mkdir_parents st q = Some st' ->
  files st !! p = Some n -> files st' !! p = Some n.
Proof.
  unfold mkdir_parents.
  destruct (mkdir_from (files st) [] q) as [fs|] eqn:E; [|done].
  intros [= <-]. by apply (mkdir_from_mono _ _ _ _ _ _ E).
Qed.

Section Table.

Variable pairs : list (path * path).
Hypothesis Htable : table_ok pairs = true.

Lemma table_pair pr :
  In pr pairs ->
  outside pr.1 = true /\ outside (parent pr.2) = false /\
  (under_java "modules" pr.2 || under_java "common" pr.2) = true /\
  expand_template (declaration pr.2) = Some (declaration pr.2).
Proof.
  intros Hin. unfold table_ok in Htable.
  apply andb_true_iff in Htable as [[H _]%andb_true_iff _].
  rewrite forallb_forall in H. specialize (H pr Hin).
  rewrite !andb_true_iff, negb_true_iff in H.
  destruct H as [[[? ?] ?] ?%bool_decide_eq_true]. done.
Qed.

Lemma table_nodup : NoDup pairs.*2.
Proof.
  unfold table_ok in Htable.
  apply andb_true_iff in Htable as [[_ H]%andb_true_iff _].
  by apply bool_decide_eq_true in H.
Qed.

Lemma table_no_prefix pr pr' :
  In pr pairs -> In pr' pairs -> ~ pr'.2 `prefix_of` parent pr.2.
Proof.
  intros Hin Hin'. unfold table_ok in Htable.
  apply andb_true_iff in Htable as [_ H].
  rewrite forallb_forall in H. specialize (H pr Hin).
  rewrite forallb_forall in H. specialize (H pr' Hin').
  apply negb_true_iff in H. by apply bool_decide_eq_false in H.
Qed.

Variable st0 : state.

(** One pair more. *)
Lemma move_file_step done s d st :
  (forall pr, In pr done -> In pr pairs) -> In (s, d) pairs ->
  ~ In d done.*2 -> relocated st0 done st ->
  exists b, (move_file st s d).1.1 = Some b /\
    relocated st0 (done ++ [(s, d)]) (move_file st s d).1.2.
Proof.
  intros Hsub Hin Hfresh (I1 & I2 & I3 & I4).
  destruct (table_pair _ Hin) as (Hs & Hpd & _ & _). cbn [fst snd] in *.
  pose proof (outside_parent _ Hpd) as Hd.
  pose proof (node_at_agree _ _ s I1 Hs) as Hsrc.
  assert (Hweak : forall st', agree_outside st0 st' ->
    (forall p c md, outside p = false -> files st' !! p = Some (File c md) ->
       exists src, In (src, p) (done ++ [(s, d)]) /\
         node_at (files st0) src = Some (File c md)) ->
    (forall p, outside p = false -> files st' !! p = Some Dir ->
       exists pr, In pr (done ++ [(s, d)]) /\ p `prefix_of` parent pr.2) ->
    (forall src dest c md, In (src, dest) done ->
       node_at (files st0) src = Some (File c md) ->
       files st' !! dest = Some (File c md)) ->
    (forall c md, node_at (files st0) s = Some (File c md) ->
       files st' !! d = Some (File c md)) ->
    relocated st0 (done ++ [(s, d)]) st').
  { intros st' J1 J2 J3 J4 J5. split; [done|]. split; [done|split; [done|]].
    intros src dest c md [Hi|[[= <- <-]|[]]]%in_app_or Hf; eauto. }
  assert (Hlift : forall st',
    (forall p c md, outside p = false -> files st' !! p = Some (File c md) ->
       exists src, In (src, p) done /\
         node_at (files st0) src = Some (File c md)) ->
    (forall p c md, outside p = false -> files st' !! p = Some (File c md) ->
       exists src, In (src, p) (done ++ [(s, d)]) /\
         node_at (files st0) src = Some (File c md))).
  { intros st' J p c md Hp Hf. destruct (J p c md Hp Hf) as (src & ? & ?).
    exists src. split; [|done]. apply in_or_app. by left. }
  unfold move_file. unfold exists_. rewrite Hsrc.
  destruct (node_at (files st0) s) as [n|] eqn:Hn; cbn [negb].
  2:{ exists false. split; [done|]. cbn [fst snd].
      apply Hweak; try done; [by apply Hlift|].
      intros p Hp Hf. destruct (I3 p Hp Hf) as (pr & ? & ?).
      exists pr. split; [|done]. apply in_or_app. by left. }
  destruct (mkdir_parents st (parent d)) as [st1|] eqn:Hmk.
  2:{ exfalso. unfold mkdir_parents in Hmk.
      destruct (mkdir_from (files st) [] (parent d)) eqn:E; [done|].
      apply mkdir_from_None in E as (k & c & md & Hk & Hf). cbn [app] in Hf.
      assert (Ho : outside (take (S k) (parent d)) = false)
        by by rewrite outside_take.
      destruct (I2 _ c md Ho Hf) as (src & Hi & _).
      apply (table_no_prefix (s, d) (src, take (S k) (parent d)));
        [done|by apply Hsub|]. cbn [snd]. apply prefix_take. }
  assert (K1 : agree_outside st0 st1).
  { eapply agree_outside_trans; [done|]. by eapply mkdir_parents_agree. }
  assert (Hnew : forall p, files st1 !! p = files st !! p \/
            (files st1 !! p = Some Dir /\ p `prefix_of` parent d)).
  { intros p. unfold mkdir_parents in Hmk.
    destruct (mkdir_from (files st) [] (parent d)) as [fs|] eqn:E; [|done].
    injection Hmk as <-. cbn [files].
    destruct (mkdir_from_new _ _ _ _ p E) as [?|(_ & ? & k & _ & ->)];
      [by left|right]. split; [done|]. apply prefix_take. }
  assert (K2 : forall p c md, outside p = false ->
            files st1 !! p = Some (File c md) ->
            exists src, In (src, p) done /\
              node_at (files st0) src = Some (File c md)).
  { intros p c md Hp Hf. destruct (Hnew p) as [E|[E _]]; [|congruence].
    rewrite E in Hf. eauto. }
  assert (K3 : forall p, outside p = false -> files st1 !! p = Some Dir ->
            exists pr, In pr (done ++ [(s, d)]) /\ p `prefix_of` parent pr.2).
  { intros p Hp Hf. destruct (Hnew p) as [E|[_ E]].
    - rewrite E in Hf. destruct (I3 p Hp Hf) as (pr & ? & ?).
      exists pr. split; [|done]. apply in_or_app. by left.
    - exists (s, d). split; [|done]. apply in_or_app. right. by left. }
  assert (K4 : forall src dest c md, In (src, dest) done ->
            node_at (files st0) src = Some (File c md) ->
            files st1 !! dest = Some (File c md)).
  { intros src dest c md Hi Hf.
    eapply mkdir_parents_mono; [done|]. eauto. }
  assert (Hnd : is_dir (files st1) d = false).
  { unfold is_dir. rewrite (node_at_inside _ _ Hd).
    destruct (files st1 !! d) as [[|]|] eqn:E; try done.
    destruct (K3 _ Hd E) as (pr & Hi & Hpre).
    exfalso. apply (table_no_prefix pr (s, d)); [|done..].
    apply in_app_or in Hi as [Hi|[<-|[]]]; [by apply Hsub|done]. }
  destruct (copy2 st1 s d) as [st2|] eqn:Hcp; cbn [fst snd].
  - exists true. split; [done|].
    apply copy2_Some in Hcp as (c & md & Hs1 & _ & _ & _ & ->).
    rewrite (node_at_agree _ _ s K1 Hs), Hn in Hs1.
    unfold copy_target. rewrite Hnd. cbn [files].
    apply Hweak.
    + intros p Hp. cbn [files]. rewrite lookup_insert_ne; [by apply K1|].
      intros <-. congruence.
    + intros p c' md' Hp. cbn [files].
      destruct (decide (p = d)) as [->|Hne].
      * rewrite lookup_insert_eq. intros [= <- <-]. exists s.
        split; [apply in_or_app; right; by left|congruence].
      * rewrite lookup_insert_ne by done. intros Hf.
        by apply (Hlift st1 K2).
    + intros p Hp. cbn [files].
      destruct (decide (p = d)) as [->|Hne];
        [by rewrite lookup_insert_eq|].
      rewrite lookup_insert_ne by done. by apply K3.
    + intros src dest c' md' Hi Hf. cbn [files].
      rewrite lookup_insert_ne; [by eapply K4|].
      intros <-. apply Hfresh. apply in_map_iff. by exists (src, d).
    + intros c' md' Hf. cbn [files]. rewrite lookup_insert_eq. congruence.
  - exists false. split; [done|]. apply Hweak; try done; [by apply Hlift|].
    intros c md Hf. injection Hf as ->.
    exfalso. revert Hcp. unfold copy2, copy_target.
    rewrite Hnd, (node_at_agree _ _ s K1 Hs), Hn, Hnd.
    rewrite (mkdir_parents_is_dir _ _ _ Hmk).
    rewrite bool_decide_eq_false_2; [done|]. intros ->. congruence.
Qed.

(** The whole first loop. *)
Lemma move_all_relocated todo done st moved failed :
  pairs = done ++ todo -> relocated st0 done st ->
  (move_all todo st moved failed).1.1.1.1 = true /\
  relocated st0 pairs (move_all todo st moved failed).1.1.1.2.
Proof.
  revert done st moved failed.
  induction todo as [|[s d] todo IH]; intros done st moved failed Hp Hinv.
  - rewrite app_nil_r in Hp. by subst.
  - rewrite move_all_cons. cbv zeta.
    destruct (move_file_step done s d st) as (b & Hb & Hinv').
    + intros pr Hi. rewrite Hp. apply in_or_app. by left.
    + rewrite Hp. apply in_or_app. right. by left.
    + pose proof table_nodup as Hn. rewrite Hp, fmap_app in Hn.
      apply NoDup_app in Hn as (_ & Hn & _). intros Hi%list_elem_of_In.
      apply (Hn _ Hi). cbn. left.
    + done.
    + rewrite Hb.
      specialize (IH (done ++ [(s, d)]) (move_file st s d).1.2
                    (if b then S moved else moved)
                    (if b then failed else S failed)).
      destruct (move_all todo (move_file st s d).1.2 _ _)
        as [[[[ok st2] m2] f2] log2]. cbn [fst snd] in *.
      apply IH; [|done]. by rewrite <- app_assoc.
Qed.

End Table.

Lemma update_packages_other ps st n q :
  ~ In q ps -> files (update_packages ps st n).1.1 !! q = files st !! q.
Proof.
  revert st n. induction ps as [|p ps IH]; intros st n Hq; [done|].
  rewrite update_packages_cons. cbv zeta.
  set (r := update_package_declaration st p).
  specialize (IH r.1.2 (if r.1.1 then S n else n)
                (fun H => Hq (or_intror H))).
  destruct (update_packages ps r.1.2 _) as [[st2 n2] log2] eqn:E.
  cbn [fst snd] in *. rewrite IH. unfold r.
  destruct (update_package_declaration st p) as [[b st1] log1] eqn:E1.
  cbn [fst snd]. eapply update_package_declaration_other; [done|].
  intros ->. apply Hq. by left.
Qed.

(** Each file of the list is rewritten once. *)
Lemma update_packages_file ps st n p c md :
  NoDup ps -> In p ps ->
  node_at (files st) p = Some (File c md) ->
  expand_template (declaration p) = Some (declaration p) ->
  exists t,
    files (update_packages ps st n).1.1 !! p =
    Some (File (sub_package (declaration p) (universal_newlines c))
            (Meta (mode md) t)).
Proof.
  intros Hnd. revert st n. induction Hnd as [|q ps Hq Hnd IH];
    intros st n Hin Hp Ht; [done|].
  rewrite update_packages_cons. cbv zeta.
  destruct Hin as [->|Hin].
  - pose proof (update_packages_other ps
      (update_package_declaration st p).1.2
      (if (update_package_declaration st p).1.1 then S n else n) p) as Ho.
    destruct (update_packages ps _ _) as [[st2 n2] log2]. cbn [fst snd] in *.
    rewrite Ho by (by intros ?%list_elem_of_In).
    unfold update_package_declaration, exists_, read_text, write_text.
    cbv zeta. rewrite !Hp, (parse_template_literal _ Ht), sub_template_literal.
    cbn [negb fst snd files].
    rewrite lookup_insert_eq. by eexists.
  - assert (Hne : p <> q) by (intros ->; by apply Hq, list_elem_of_In).
    specialize (IH (update_package_declaration st q).1.2
                  (if (update_package_declaration st q).1.1 then S n else n)
                  Hin).
    destruct (update_packages ps _ _) as [[st2 n2] log2]. cbn [fst snd] in *.
    apply IH; [|done].
    destruct p as [|a p]; [done|]. cbn [node_at] in *.
    destruct (update_package_declaration st q) as [[b st1] log1] eqn:E1.
    cbn [fst snd]. by rewrite (update_package_declaration_other _ _ _ _ _ _ E1).
Qed.

Lemma NoDup_java_files st : NoDup (java_files st).
Proof.
  unfold java_files, glob_under.
  assert (Hp : NoDup (paths (files st))) by apply NoDup_fst_map_to_list.
  assert (Hf : forall f, NoDup (List.filter f (paths (files st)))).
  { intros f. apply NoDup_ListNoDup, List.NoDup_filter.
    by apply NoDup_ListNoDup. }
  apply NoDup_app. split; [apply Hf|]. split; [|apply Hf].
  intros p [_ H1]%list_elem_of_In%filter_In [_ H2]%list_elem_of_In%filter_In.
  unfold under_java in *. destruct p as [|a [|b p]]; try done.
  apply andb_true_iff in H1 as [H1%String.eqb_eq _].
  apply andb_true_iff in H2 as [H2%String.eqb_eq _]. congruence.
Qed.

Lemma in_java_files st p :
  is_Some (files st !! p) ->
  (under_java "modules" p || under_java "common" p) = true ->
  In p (java_files st).
Proof.
  intros Hp Hj. unfold java_files, glob_under. apply in_or_app.
  apply orb_true_iff in Hj as [Hj|Hj]; [left|right];
    apply filter_In; by rewrite in_paths.
Qed.

Lemma relocated_init st : fresh (files st) = true -> relocated st [] st.
Proof.
  intros Hfresh. split; [apply agree_outside_refl|].
  split; [|split].
  - intros p c' md' Hp Hf. pose proof (fresh_spec _ _ _ Hfresh Hf).
    congruence.
  - intros p Hp Hf. pose proof (fresh_spec _ _ _ Hfresh Hf). congruence.
  - intros src dest c md [].
Qed.

Lemma migrations_table_ok : table_ok MIGRATIONS = true.
Proof. vm_compute. reflexivity. Qed.



End MigrateMore.

(** ** Rewriting the package declaration twice *)

Module PackageMore.

Import Migrate Spaces TextFacts PackageFacts.

#[local] Arguments T : simpl never.
#[local] Arguments Ascii.eqb : simpl never.
#[local] Arguments is_space : simpl never.

(** A literal that holds no [c] is matched inside [x] alone when [x]
    holds a [c]. *)
Lemma strip_prefix_within (c : ascii) p x y :
  ~ In c p -> In c x ->
  strip_prefix p (x ++ y) = (fun t => t ++ y) <$> strip_prefix p x.
Proof.
  revert x. induction p as [|a p IH]; intros x Hp Hx; [done|].
  destruct x as [|b x]; [done|]. cbn [app strip_prefix].
  destruct (Ascii.eqb a b) eqn:E; [|done].
  apply Ascii.eqb_eq in E as <-. apply IH.
  - intros ?. apply Hp. by right.
  - destruct Hx as [->|Hx]; [|done]. exfalso. apply Hp. by left.
Qed.

(** [\s+] followed by a literal that starts with no white space: all the
    white space is taken. *)
Lemma spaces_then_skip lit b lit' s :
  lit = b :: lit' -> is_space b = false ->
  spaces_then lit s =
  match s with
  | c :: t => if is_space c then strip_prefix lit (skip_spaces t) else None
  | [] => None
  end.
Proof.
  intros -> Hb. induction s as [|c s IH]; [done|].
  cbn [spaces_then]. destruct (is_space c) eqn:Hc; [|done].
  rewrite IH. destruct s as [|d s]; [done|]. cbn [skip_spaces].
  destruct (is_space d) eqn:Hd.
  - destruct (strip_prefix (b :: lit') (skip_spaces s)); [done|].
    cbn [strip_prefix]. destruct (Ascii.eqb b d) eqn:E; [|done].
    apply Ascii.eqb_eq in E as ->. congruence.
  - done.
Qed.

Lemma skip_spaces_app x y c y' :
  y = c :: y' -> is_space c = false ->
  skip_spaces (x ++ y) =
  if forallb is_space x then y else skip_spaces x ++ y.
Proof.
  intros -> Hc. induction x as [|a x IH]; cbn [app skip_spaces forallb].
  - by rewrite Hc.
  - destruct (is_space a); [done|]. done.
Qed.

Lemma skip_spaces_suffix x : exists w, x = w ++ skip_spaces x.
Proof.
  induction x as [|a x [w IH]]; [by exists []|]. cbn [skip_spaces].
  destruct (is_space a); [|by exists []].
  exists (a :: w). cbn [app]. by rewrite <- IH.
Qed.

Lemma skip_spaces_nonempty x :
  forallb is_space x = false -> skip_spaces x <> [].
Proof.
  induction x as [|a x IH]; [done|]. cbn [forallb skip_spaces].
  destruct (is_space a); [apply IH|done].
Qed.

Lemma last_skip_spaces x c :
  forallb is_space x = false -> last x = Some c ->
  last (skip_spaces x) = Some c.
Proof.
  intros Hx%skip_spaces_nonempty Hl.
  destruct (skip_spaces_suffix x) as [w E]. rewrite E in Hl.
  apply last_app_Some in Hl as [?|[Hn%last_None _]]; done.
Qed.

Lemma last_strip_prefix p x x1 c :
  ~ In c p -> last x = Some c -> strip_prefix p x = Some x1 ->
  last x1 = Some c.
Proof.
  intros Hp Hl ->%strip_prefix_Some.
  apply last_app_Some in Hl as [?|[_ Hl%last_Some_elem_of]]; [done|].
  by apply list_elem_of_In in Hl.
Qed.

Lemma upto_semi_app z y :
  upto_semi (z ++ y) =
  match upto_semi z with
  | Some r => Some (r ++ y)
  | None => upto_semi y
  end.
Proof.
  induction z as [|c z IH]; [done|]. cbn [app upto_semi].
  by destruct (Ascii.eqb c semi).
Qed.

Lemma in_last (x : text) c : last x = Some c -> In c x.
Proof. intros H%last_Some_elem_of. by apply list_elem_of_In. Qed.

(** After a text that ends with a newline, whether the pattern matches
    does not depend on which declaration follows. *)
Lemma match_package_after_newline x y1 y2 q1 q2 :
  last x = Some newline ->
  y1 = "p"%char :: q1 -> y2 = "p"%char :: q2 ->
  upto_semi y1 <> None -> upto_semi y2 <> None ->
  match_package (x ++ y1) = None -> match_package (x ++ y2) = None.
Proof.
  intros Hl Hy1 Hy2 Hs1 Hs2. unfold match_package.
  assert (Hn1 : ~ In newline (T "package"))
    by (vm_compute; intuition congruence).
  assert (Hn2 : ~ In newline (T "com.demo.auth."))
    by (vm_compute; intuition congruence).
  rewrite (strip_prefix_within newline _ x y1 Hn1 (in_last _ _ Hl)),
    (strip_prefix_within newline _ x y2 Hn1 (in_last _ _ Hl)).
  destruct (strip_prefix (T "package") x) as [x1|] eqn:E1; [|done].
  cbn [fmap option_fmap option_map].
  apply (last_strip_prefix _ _ _ newline Hn1 Hl) in E1.
  rewrite !(spaces_then_skip (T "com.demo.auth.") "c"%char
             (T "om.demo.auth.")) by done.
  destruct x1 as [|c x2]; [done|]. cbn [app].
  destruct (is_space c); [|done].
  rewrite (skip_spaces_app x2 y1 "p"%char q1),
    (skip_spaces_app x2 y2 "p"%char q2) by done.
  destruct (forallb is_space x2) eqn:Hx2.
  { subst y1 y2. done. }
  assert (Hl2 : last x2 = Some newline).
  { destruct x2 as [|d x2]; [done|]. by rewrite last_cons_cons in E1. }
  pose proof (last_skip_spaces _ _ Hx2 Hl2) as Hz.
  rewrite (strip_prefix_within newline _ _ y1 Hn2 (in_last _ _ Hz)),
    (strip_prefix_within newline _ _ y2 Hn2 (in_last _ _ Hz)).
  destruct (strip_prefix (T "com.demo.auth.") (skip_spaces x2))
    as [z2|] eqn:E3; [|done].
  cbn [fmap option_fmap option_map].
  apply (last_strip_prefix _ _ _ newline Hn2 Hz) in E3.
  destruct z2 as [|d z3]; [done|]. cbn [app not_semi_plus].
  destruct (Ascii.eqb d semi); [done|].
  rewrite !upto_semi_app. destruct (upto_semi z3); [done|].
  intros H. by destruct (Hs1 H).
Qed.

Lemma match_package_shape s rest :
  match_package s = Some rest ->
  (exists q, s = "p"%char :: q) /\ upto_semi s <> None.
Proof.
  unfold match_package.
  destruct (strip_prefix (T "package") s) as [t1|] eqn:E1; [|done].
  apply strip_prefix_Some in E1 as ->.
  destruct (spaces_then _ t1) as [u|] eqn:E2; [|done].
  apply spaces_then_Some in E2 as (ws & _ & _ & ->).
  intros Hu. split; [by eexists|].
  rewrite !upto_semi_app.
  destruct (upto_semi (T "package")); [done|].
  destruct (upto_semi ws); [done|].
  destruct (upto_semi (T "com.demo.auth.")); [done|].
  destruct u as [|c u]; [done|]. cbn [not_semi_plus upto_semi] in *.
  destruct (Ascii.eqb c semi); [done|]. by rewrite Hu.
Qed.

Lemma bol_after_last b x :
  x <> [] -> bol_after b x = true -> last x = Some newline.
Proof.
  revert b. induction x as [|c x IH]; intros b Hne; [done|].
  cbn [bol_after]. destruct x as [|d x].
  - cbn. intros ->%Ascii.eqb_eq. done.
  - rewrite last_cons_cons. by apply IH.
Qed.

Lemma bol_after_snoc b x c :
  bol_after b (x ++ [c]) = Ascii.eqb c newline.
Proof. revert b. induction x as [|a x IH]; intros b; [done|]. apply IH. Qed.

Section Declaration.

Variable body0 : text.
Hypothesis Hbody : body0 <> [].
Hypothesis Hnosemi : Seg.nosemi body0 = true.

Let repl : text :=
  T "package" ++ T " " ++ T "com.demo.auth." ++ body0 ++ [semi].

Lemma match_package_repl z : match_package (repl ++ z) = Some z.
Proof.
  unfold repl. rewrite <- !app_assoc. cbn [app].
  by apply (match_package_decl (T " ") body0 z).
Qed.

Lemma repl_shape z :
  (exists q, repl ++ z = "p"%char :: q) /\ upto_semi (repl ++ z) <> None.
Proof. apply (match_package_shape _ z), match_package_repl. Qed.

(** The substitution creates no match before the place it is at. *)
Lemma sub_package_no_new_match t x :
  x <> [] -> match_package (x ++ t) = None ->
  match_package (x ++ sub_package_from repl (bol_after true x) t) = None.
Proof.
  revert x. induction t as [|c t IH]; intros x Hx Hm.
  - by rewrite sub_package_from_nil.
  - assert (Hstep :
      match_package (x ++ c :: sub_package_from repl (Ascii.eqb c newline) t)
      = None).
    { replace (x ++ c :: sub_package_from repl (Ascii.eqb c newline) t)
        with ((x ++ [c]) ++
              sub_package_from repl (bol_after true (x ++ [c])) t)
        by (by rewrite bol_after_snoc, <- app_assoc).
      apply IH; [by destruct x|]. by rewrite <- app_assoc. }
    rewrite sub_package_from_eq.
    destruct (bol_after true x) eqn:Hb; [|done].
    destruct (match_package (c :: t)) as [rest|] eqn:E; [|done].
    destruct (match_package_shape _ _ E) as [[q1 Hq1] Hs1].
    destruct (repl_shape (sub_package_from repl false rest)) as [[q2 Hq2] Hs2].
    by apply (match_package_after_newline x (c :: t) _ q1 q2
                (bol_after_last _ _ Hx Hb)).
Qed.

Lemma sub_package_from_idem n s b :
  length s < n ->
  sub_package_from repl b (sub_package_from repl b s) =
  sub_package_from repl b s.
Proof.
  revert s b. induction n as [|n IH]; intros s b Hn; [lia|].
  rewrite (sub_package_from_eq repl b s).
  destruct (if b then match_package s else None) as [rest|] eqn:E.
  - assert (length rest < length s)
      by (destruct b; [by apply match_package_shorter|done]).
    rewrite sub_package_from_eq.
    destruct b; [|done]. rewrite match_package_repl.
    rewrite IH by lia. done.
  - destruct s as [|c t]; [by rewrite sub_package_from_nil|].
    rewrite sub_package_from_eq.
    assert (Hm : (if b then match_package
                    (c :: sub_package_from repl (Ascii.eqb c newline) t)
                  else None) = None).
    { destruct b; [|done].
      apply (sub_package_no_new_match t [c]); done. }
    rewrite Hm. simpl in Hn. rewrite IH by lia. done.
Qed.

End Declaration.

(** Rewriting the declarations of a text a second time, with the same
    path-derived declaration, changes nothing, where no directory name
    has a backslash: the declaration is then a template of its own
    characters, the declaration that was put in is the only thing the
    pattern finds, and it is replaced by itself. *)
Theorem sub_package_idempotent p s :
  expand_template (declaration p) = Some (declaration p) ->
  join_dots (map T (parent p)) <> [] ->
  Seg.nosemi (join_dots (map T (parent p))) = true ->
  exists tpl,
    parse_template (declaration p) = Some tpl /\
    sub_template tpl s = sub_package (declaration p) s /\
    sub_template tpl (sub_template tpl s) = sub_template tpl s.
Proof.
  intros Ht Hb Hs. exists (map Lit (declaration p)).
  split; [by apply parse_template_literal|].
  rewrite !sub_template_literal. split; [done|]. unfold sub_package.
  replace (declaration p) with
    (T "package" ++ T " " ++ T "com.demo.auth." ++
     join_dots (map T (parent p)) ++ [semi]).
  - by apply (sub_package_from_idem _ Hb Hs (S (length s))); lia.
  - unfold declaration, new_package.
    change (T "package ") with (T "package" ++ T " ").
    change (T ";") with [semi]. by rewrite <- !app_assoc.
Qed.

Lemma sub_package_idempotent_witness :
  exists tpl,
    parse_template (declaration ["modules"; "x"; "F.java"]%string) =
      Some tpl /\
    sub_template tpl Examples.two_decls =
      sub_package (declaration ["modules"; "x"; "F.java"]%string)
        Examples.two_decls /\
    sub_template tpl (sub_template tpl Examples.two_decls) =
      sub_template tpl Examples.two_decls.
Proof.
  apply (sub_package_idempotent ["modules"; "x"; "F.java"]%string).
  - reflexivity.
  - discriminate.
  - reflexivity.
Defined.

(** With a backslash in a directory name a second rewriting may change
    the text again: in the directory [\g<0>x] the template puts the old
    declaration back in, behind the prefix, each time. *)
Lemma sub_template_again_with_group :
  let p := ["modules"; "\g<0>x"; "F.java"]%string in
  let s := T "package com.demo.auth.a;" in
  exists tpl,
    parse_template (declaration p) = Some tpl /\
    sub_template tpl s =
      T "package com.demo.auth.modules.package com.demo.auth.a;x;" /\
    sub_template tpl (sub_template tpl s) <> sub_template tpl s.
Proof.
  intros p s. eexists. split; [vm_compute; reflexivity|].
  split; [vm_compute; reflexivity|]. vm_compute. discriminate.
Qed.

End PackageMore.

(** ** The tree stays a tree *)

Module WellFormed.

Import Migrate ImportsMain Examples Runs FSFacts MigrateFacts ImportsMainMore
  MigrateMore.

Lemma well_formed_spec fs :
  well_formed fs = true <->
  (forall p n, fs !! p = Some n -> p <> [] /\ is_dir fs (parent p) = true).
Proof.
  unfold well_formed. rewrite forallb_forall. split.
  - intros H p n Hp. specialize (H p (proj2 (in_paths fs p) (mk_is_Some _ _ Hp))).
    apply andb_true_iff in H as [H1%negb_true_iff H2].
    by apply bool_decide_eq_false in H1.
  - intros H p [n Hp]%in_paths. destruct (H p n Hp) as [H1 H2].
    rewrite H2, bool_decide_eq_false_2 by done. done.
Qed.

Lemma parent_neq (q : path) : q <> [] -> parent q <> q.
Proof.
  intros Hq E. apply (f_equal length) in E. unfold parent in E.
  destruct q as [|a q] using rev_ind; [done|].
  rewrite removelast_last, length_app in E. simpl in E. lia.
Qed.

Lemma is_dir_insert_ne fs q n x :
  x <> q -> is_dir (<[q := n]> fs) x = is_dir fs x.
Proof.
  intros Hx. unfold is_dir, node_at. destruct x; [done|].
  by rewrite lookup_insert_ne.
Qed.

(** A node put where no directory is, in a directory that is there. *)
Lemma well_formed_insert fs q n :
  well_formed fs = true -> q <> [] ->
  is_dir fs q = false -> is_dir fs (parent q) = true ->
  well_formed (<[q := n]> fs) = true.
Proof.
  rewrite !well_formed_spec. intros Hwf Hq Hnd Hpar p m Hp.
  destruct (decide (p = q)) as [->|Hne].
  - split; [done|]. rewrite is_dir_insert_ne; [done|]. by apply parent_neq.
  - rewrite lookup_insert_ne in Hp by done.
    destruct (Hwf p m Hp) as [H1 H2]. split; [done|].
    rewrite is_dir_insert_ne; [done|]. intros E. congruence.
Qed.

Lemma mkdir_from_well_formed fs pre rest fs' :
  well_formed fs = true -> is_dir fs pre = true ->
  mkdir_from fs pre rest = Some fs' -> well_formed fs' = true.
Proof.
  revert fs pre. induction rest as [|c rest IH]; intros fs pre Hwf Hpre;
    cbn [mkdir_from]; [by intros [= <-]|].
  assert (Hq : pre ++ [c] <> []) by by destruct pre.
  assert (Hpar : parent (pre ++ [c]) = pre)
    by (unfold parent; by rewrite removelast_last).
  destruct (fs !! (pre ++ [c])) as [[|]|] eqn:E; [done| |].
  - apply IH; [done|]. unfold is_dir, node_at.
    destruct (pre ++ [c]); [done|]. by rewrite E.
  - apply IH.
    + apply well_formed_insert; [done..| |by rewrite Hpar].
      unfold is_dir, node_at. destruct (pre ++ [c]); [done|]. by rewrite E.
    + unfold is_dir, node_at. destruct (pre ++ [c]) eqn:E'; [done|].
      by rewrite lookup_insert_eq.
Qed.

Lemma move_file_well_formed st src dest :
  well_formed (files st) = true ->
  well_formed (files (move_file st src dest).1.2) = true.
Proof.
  intros Hwf. unfold move_file. destruct (negb (exists_ st src)); [done|].
  unfold mkdir_parents.
  destruct (mkdir_from (files st) [] (parent dest)) as [fs|] eqn:E; [|done].
  pose proof (mkdir_from_well_formed _ [] _ _ Hwf eq_refl E) as Hwf1.
  destruct (copy2 _ src dest) as [st2|] eqn:E2; cbn [fst snd]; [|done].
  apply copy2_Some in E2 as (c & md & _ & _ & Hnd & Hpar & ->).
  cbn [files] in *. apply well_formed_insert; try done.
  intros Ht. by rewrite Ht in Hnd.
Qed.

Lemma update_package_declaration_well_formed st p :
  well_formed (files st) = true ->
  well_formed (files (update_package_declaration st p).1.2) = true.
Proof.
  intros Hwf. unfold update_package_declaration, read_text, write_text.
  destruct (negb (exists_ st p)); [done|].
  destruct (node_at (files st) p) as [[c md|]|] eqn:Hp; [|done..].
  destruct (parse_template (declaration p)); [|done].
  cbn [fst snd files]. destruct p as [|a p]; [done|]. cbn [node_at] in Hp.
  apply well_formed_insert; try done.
  - unfold is_dir, node_at. by rewrite Hp.
  - by destruct (proj1 (well_formed_spec _) Hwf _ _ Hp).
Qed.

(** The relocator keeps the tree a tree: after a run of [main], every
    node is still inside a directory; no file is left under a missing
    directory or under a file. *)
Theorem migrate_main_well_formed st :
  well_formed (files st) = true ->
  well_formed (files (Migrate.main st).1.2) = true.
Proof.
  intros Hwf. unfold Migrate.main, main_on.
  assert (H1 : forall pairs st m f, well_formed (files st) = true ->
            well_formed (files (move_all pairs st m f).1.1.1.2) = true).
  { clear. induction pairs as [|[s d] pairs IH]; intros st m f Hwf; [done|].
    rewrite move_all_cons. cbv zeta.
    pose proof (move_file_well_formed st s d Hwf) as H.
    destruct (move_file st s d) as [[[b|] st1] log1]; cbn [fst snd] in *;
      [|done].
    specialize (IH st1 (if b then S m else m) (if b then f else S f) H).
    by destruct (move_all pairs st1 _ _) as [[[[ok st2] m2] f2] log2]. }
  assert (H2 : forall ps st n, well_formed (files st) = true ->
            well_formed (files (update_packages ps st n).1.1) = true).
  { clear. induction ps as [|p ps IH]; intros st n Hwf; [done|].
    rewrite update_packages_cons. cbv zeta.
    pose proof (update_package_declaration_well_formed st p Hwf) as H.
    set (r := update_package_declaration st p) in *.
    specialize (IH r.1.2 (if r.1.1 then S n else n) H).
    by destruct (update_packages ps r.1.2 _) as [[st2 n2] log2]. }
  specialize (H1 MIGRATIONS st 0 0 Hwf).
  destruct (move_all MIGRATIONS st 0 0) as [[[[ok st1] m] f] log1].
  cbn [fst snd] in *. destruct ok; [|done].
  unfold rewrite_phase. specialize (H2 (java_files st1) st1 0 H1).
  by destruct (update_packages (java_files st1) st1 0) as [[st2 n2] log2].
Qed.

Lemma migrate_main_well_formed_witness :
  well_formed (files (Migrate.main st_dest_dir).1.2) = true.
Proof.
  apply (migrate_main_well_formed st_dest_dir). vm_compute. reflexivity.
Defined.

End WellFormed.
